(** * Verification of the advancedReport sync server (app.js, syncService.js,
    licenseService.js) against its specification.

    The program is JavaScript.  Its values are modelled by [jsval]; objects
    keep their property order (the order of [Object.keys]); strings are
    handled as lists of 8-bit characters where the code scans them. *)

From Stdlib Require Import String Ascii List ZArith Bool Lia Permutation Arith.
#[local] Set Warnings "-register-all".
Import ListNotations.
Local Open Scope bool_scope.
Local Open Scope string_scope.

(** ** JavaScript values and objects *)

Inductive jsval : Type :=
| JUndefined
| JNull
| JBool (b : bool)
| JNum (z : Z)
| JStr (s : string)
| JObj (fields : list (string * jsval)).

(** A plain object: its own enumerable properties in insertion order. *)
Definition obj := list (string * jsval).

(** [o[k]] *)
Fixpoint obj_get (o : obj) (k : string) : jsval :=
  match o with
  | [] => JUndefined
  | (k', v) :: r => if String.eqb k k' then v else obj_get r k
  end.

(** [k in o] *)
Definition obj_has (o : obj) (k : string) : bool :=
  existsb (fun p => String.eqb (fst p) k) o.

(** [o[k] = v]: an existing property keeps its position, a new one is
    appended. *)
Fixpoint obj_set (o : obj) (k : string) (v : jsval) : obj :=
  match o with
  | [] => [(k, v)]
  | (k', v') :: r => if String.eqb k k' then (k', v) :: r else (k', v') :: obj_set r k v
  end.

(** [Object.keys o] and [Object.values o] *)
Definition obj_keys (o : obj) : list string := map fst o.
Definition obj_values (o : obj) : list jsval := map snd o.

(** JavaScript truthiness (numbers are integers here, so NaN does not arise). *)
Definition js_truthy (v : jsval) : bool :=
  match v with
  | JUndefined | JNull => false
  | JBool b => b
  | JNum z => negb (Z.eqb z 0)
  | JStr s => negb (String.eqb s "")
  | JObj _ => true
  end.

(** [a || b] *)
Definition js_or (a b : jsval) : jsval := if js_truthy a then a else b.

(** ** Characters and string scanning *)

Definition chars := list ascii.

Definition str (s : string) : chars := list_ascii_of_string s.

(** Characters removed by [String.prototype.trim] (within 8-bit code units). *)
Definition is_js_space (c : ascii) : bool :=
  let n := nat_of_ascii c in
  Nat.eqb n 32 || ((9 <=? n) && (n <=? 13))%nat || Nat.eqb n 160.

Fixpoint drop_while (f : ascii -> bool) (l : chars) : chars :=
  match l with
  | [] => []
  | c :: r => if f c then drop_while f r else l
  end.

(** [s.trim()] *)
Definition js_trim (s : chars) : chars :=
  rev (drop_while is_js_space (rev (drop_while is_js_space s))).

(** Longest prefix whose characters satisfy [f], and the rest. *)
Fixpoint span (f : ascii -> bool) (l : chars) : chars * chars :=
  match l with
  | [] => ([], [])
  | c :: r => if f c then let (a, b) := span f r in (c :: a, b) else ([], l)
  end.

Fixpoint strip_prefix (p s : chars) : option chars :=
  match p, s with
  | [], _ => Some s
  | a :: p', b :: s' => if Ascii.eqb a b then strip_prefix p' s' else None
  | _ :: _, [] => None
  end.

(** First occurrence of [p] in [s]: the text before it and the text after it. *)
Fixpoint find_sub (p s : chars) : option (chars * chars) :=
  match strip_prefix p s with
  | Some after => Some ([], after)
  | None =>
      match s with
      | [] => None
      | c :: r =>
          match find_sub p r with
          | Some (b, a) => Some (c :: b, a)
          | None => None
          end
      end
  end.

(** [s.includes(p)] *)
Definition includes (p s : chars) : bool :=
  match find_sub p s with Some _ => true | None => false end.

(** ** parseXMLToObject (app.js) *)

(** One attempt of the tag regex (tag: one or more non-'>' characters,
    value: any number of non-'<' characters, then the closing tag) anchored at the start of [s]:
    tag, raw value and the text after the match.  Both quantifiers are
    followed by the character their class excludes, so backtracking never
    finds another match and the greedy scan below is exact. *)
Definition match_tag_at (s : chars) : option (chars * chars * chars) :=
  match s with
  | c :: s1 =>
      if Ascii.eqb c "<"%char then
        let (tag, s2) := span (fun d => negb (Ascii.eqb d ">"%char)) s1 in
        match tag, s2 with
        | _ :: _, _ :: s3 =>
            let (v, s4) := span (fun d => negb (Ascii.eqb d "<"%char)) s3 in
            match strip_prefix ("<"%char :: "/"%char :: (tag ++ [">"%char])%list) s4 with
            | Some rest => Some (tag, v, rest)
            | None => None
            end
        | _, _ => None
        end
      else None
  | [] => None
  end.

(** The [while ((match = tagRegex.exec(s)) !== null)] loop: all matches,
    left to right, each search resuming after the previous match.  Every
    match consumes at least one character, so [length s] steps suffice. *)
Fixpoint tag_scan (fuel : nat) (s : chars) : list (chars * chars) :=
  match fuel with
  | O => []
  | S f =>
      match s with
      | [] => []
      | _ :: r =>
          match match_tag_at s with
          | Some (t, v, rest) => (t, v) :: tag_scan f rest
          | None => tag_scan f r
          end
      end
  end.

Definition tag_pairs (s : chars) : list (chars * chars) := tag_scan (length s) s.

(** [result[key] = value] on a plain object: the key [__proto__] names the
    prototype setter, which ignores a string value. *)
Definition obj_assign (o : obj) (k : string) (v : jsval) : obj :=
  if String.eqb k "__proto__" then o else obj_set o k v.

(** The loop body: [result[prefix + tagName] = tagValue] when the trimmed
    value is non-empty. *)
Definition collect (prefix : string) (acc : obj) (ps : list (chars * chars)) : obj :=
  fold_left
    (fun o (p : chars * chars) =>
       let tv := js_trim (snd p) in
       match tv with
       | [] => o
       | _ :: _ => obj_assign o (prefix ++ string_of_list_ascii (fst p)) (JStr (string_of_list_ascii tv))
       end)
    ps acc.

(** [s.match(/<open>(.*?)<close>/s)]: the leftmost opening delimiter that is
    followed by a closing one, and the shortest body up to it. *)
Fixpoint lazy_body (op cl s : chars) : option chars :=
  match s with
  | [] => None
  | _ :: r =>
      match strip_prefix op s with
      | Some after =>
          match find_sub cl after with
          | Some (body, _) => Some body
          | None => lazy_body op cl r
          end
      | None => lazy_body op cl r
      end
  end.

Definition parseXMLToObject (xml : string) : obj :=
  let x := str xml in
  if includes (str "<new>") x && includes (str "<old>") x then
    let r1 :=
      match lazy_body (str "<new>") (str "</new>") x with
      | Some b => collect "" [] (tag_pairs b)
      | None => []
      end in
    match lazy_body (str "<old>") (str "</old>") x with
    | Some b => collect "old_" r1 (tag_pairs b)
    | None => r1
    end
  else collect "" [] (tag_pairs x).

(** ** Row-op dispatcher: executeAdvancedSyncOperation (app.js) *)

(** A thrown [Error] or a normal result. *)
Inductive outcome (A : Type) : Type :=
| Ok (a : A)
| Throw (msg : string).
Arguments Ok {A} a.
Arguments Throw {A} msg.

(** A parameterised statement handed to [dbManager.executeQuery]. *)
Record stmt := mkStmt { sql : string; params : list jsval }.

Fixpoint join (sep : string) (l : list string) : string :=
  match l with
  | [] => ""
  | [x] => x
  | x :: r => x ++ sep ++ join sep r
  end.

Definition bq (k : string) : string := "`" ++ k ++ "`".

Definition ascii_upper (c : ascii) : ascii :=
  let n := nat_of_ascii c in
  if ((97 <=? n) && (n <=? 122))%nat then ascii_of_nat (n - 32) else c.

(** [s.toUpperCase()] on 8-bit characters. *)
Definition js_upper (s : string) : string :=
  string_of_list_ascii (map ascii_upper (str s)).

(** [businessType] as received: a string, or [undefined]. *)
Definition bt_is (bt : option string) (s : string) : bool :=
  match bt with Some b => String.eqb b s | None => false end.

Definition bt_text (bt : option string) : string :=
  match bt with Some b => b | None => "undefined" end.

Definition starts_with_old (k : string) : bool := String.prefix "old_" k.

(** UPDATE: the [if (!('F' in d) && !('old_F' in d)) throw ...] checks for
    the listed fields, then the values [d.old_F || d.F]. *)
Fixpoint check_old_or_new (d : obj) (fields : list string) (ctx : string) : outcome unit :=
  match fields with
  | [] => Ok tt
  | f :: r =>
      if negb (obj_has d f) && negb (obj_has d ("old_" ++ f)) then
        Throw ("No " ++ f ++ " or old_" ++ f ++ " found for UPDATE operation on " ++ ctx)
      else check_old_or_new d r ctx
  end.

Definition old_or_new (d : obj) (fields : list string) (ctx : string)
  : outcome (list string * list jsval) :=
  match check_old_or_new d fields ctx with
  | Throw m => Throw m
  | Ok _ => Ok (fields, map (fun f => js_or (obj_get d ("old_" ++ f)) (obj_get d f)) fields)
  end.

(** The [whereFields]/[whereValues] computed by the UPDATE case. *)
Definition update_where (tbl : string) (bt : option string) (d : obj)
  : outcome (list string * list jsval) :=
  if String.eqb tbl "SalesDetail" then
    if bt_is bt "hospitality" then old_or_new d ["OrderNo"; "ItemCode"] "SalesDetail (Hospitality)"
    else if bt_is bt "retail" then old_or_new d ["InvoiceNo"; "StockId"] "SalesDetail (Retail)"
    else Ok ([], [])
  else if String.eqb tbl "Sales" then
    if bt_is bt "hospitality" then old_or_new d ["OrderNo"] "Sales (Hospitality)"
    else if bt_is bt "retail" then old_or_new d ["InvoiceNo"] "Sales (Retail)"
    else if obj_has d "InvoiceNo" || obj_has d "old_InvoiceNo" then
      Ok (["InvoiceNo"], [js_or (obj_get d "old_InvoiceNo") (obj_get d "InvoiceNo")])
    else if obj_has d "OrderNo" || obj_has d "old_OrderNo" then
      Ok (["OrderNo"], [js_or (obj_get d "old_OrderNo") (obj_get d "OrderNo")])
    else Throw "No InvoiceNo or OrderNo found for UPDATE operation on Sales"
  else if String.eqb tbl "StockItems" then
    if bt_is bt "retail" then old_or_new d ["StockId"] "StockItems (Retail)" else Ok ([], [])
  else if String.eqb tbl "MenuItem" then
    if bt_is bt "hospitality" then old_or_new d ["ItemCode"] "MenuItem (Hospitality)" else Ok ([], [])
  else if String.eqb tbl "SubMenuLinkDetail" then
    if bt_is bt "hospitality" then old_or_new d ["ItemCode"] "SubMenuLinkDetail (Hospitality)"
    else Ok ([], [])
  else if String.eqb tbl "PaymentReceived" then
    if bt_is bt "hospitality" then old_or_new d ["OrderNo"; "Id"] "PaymentReceived (Hospitality)"
    else if bt_is bt "retail" then old_or_new d ["InvoiceNo"; "Id"] "PaymentReceived (Retail)"
    else Ok ([], [])
  else if String.eqb tbl "Payment" then old_or_new d ["Payment"] "Payment"
  else if js_truthy (obj_get d "id") || js_truthy (obj_get d "old_id") then
    Ok (["id"], [js_or (obj_get d "old_id") (obj_get d "id")])
  else Throw ("No primary key found for UPDATE operation on " ++ tbl).

(** DELETE: [if (!('F' in d)) throw ...], values [d.F]. *)
Fixpoint check_present (d : obj) (fields : list string) (ctx : string) : outcome unit :=
  match fields with
  | [] => Ok tt
  | f :: r =>
      if negb (obj_has d f) then Throw ("No " ++ f ++ " found for DELETE operation on " ++ ctx)
      else check_present d r ctx
  end.

Definition present (d : obj) (fields : list string) (ctx : string)
  : outcome (list string * list jsval) :=
  match check_present d fields ctx with
  | Throw m => Throw m
  | Ok _ => Ok (fields, map (obj_get d) fields)
  end.

Definition delete_where (tbl : string) (bt : option string) (d : obj)
  : outcome (list string * list jsval) :=
  if String.eqb tbl "SalesDetail" then
    if bt_is bt "hospitality" then present d ["OrderNo"; "ItemCode"] "SalesDetail (Hospitality)"
    else if bt_is bt "retail" then present d ["InvoiceNo"; "StockId"] "SalesDetail (Retail)"
    else Ok ([], [])
  else if String.eqb tbl "Sales" then
    if bt_is bt "hospitality" then present d ["OrderNo"] "Sales (Hospitality)"
    else if bt_is bt "retail" then present d ["InvoiceNo"] "Sales (Retail)"
    else Ok ([], [])
  else if String.eqb tbl "MenuItem" then present d ["ItemCode"] "MenuItem"
  else if String.eqb tbl "StockItems" then present d ["StockId"] "StockItems"
  else if String.eqb tbl "PaymentReceived" then
    if bt_is bt "hospitality" then present d ["OrderNo"; "Id"] "PaymentReceived (Hospitality)"
    else if bt_is bt "retail" then present d ["InvoiceNo"; "Id"] "PaymentReceived (Retail)"
    else Ok ([], [])
  else if String.eqb tbl "Payment" then present d ["Payment"] "Payment"
  else if obj_has d "id" then Ok (["id"], [obj_get d "id"])
  else Throw ("No primary key found for DELETE operation on " ++ tbl).

Definition eq_placeholders (cols : list string) (sep : string) : string :=
  join sep (map (fun k => bq k ++ " = ?") cols).

Definition insert_stmt (tbl : string) (d : obj) : stmt :=
  let ks := obj_keys d in
  mkStmt ("INSERT INTO " ++ tbl ++ " (" ++ join ", " (map bq ks) ++ ") VALUES ("
          ++ join ", " (map (fun _ => "?") ks) ++ ") ON DUPLICATE KEY UPDATE "
          ++ join ", " (map (fun k => bq k ++ " = VALUES(" ++ bq k ++ ")") ks))
         (obj_values d).

Definition update_stmt (tbl : string) (bt : option string) (d : obj) : outcome stmt :=
  match update_where tbl bt d with
  | Throw m => Throw m
  | Ok (wf, wv) =>
      let setkeys := filter (fun k => negb (starts_with_old k)) (obj_keys d) in
      match setkeys with
      | [] => Throw "No fields to update"
      | _ :: _ =>
          match wf with
          | [] => Throw ("No WHERE condition defined for UPDATE operation on " ++ tbl
                         ++ " with businessType=" ++ bt_text bt)
          | _ :: _ =>
              Ok (mkStmt ("UPDATE " ++ tbl ++ " SET " ++ eq_placeholders setkeys ", "
                          ++ " WHERE " ++ eq_placeholders wf " AND ")
                         (map (obj_get d) setkeys ++ wv))
          end
      end
  end.

Definition delete_stmt (tbl : string) (bt : option string) (d : obj) : outcome stmt :=
  match delete_where tbl bt d with
  | Throw m => Throw m
  | Ok (wf, wv) =>
      match wf with
      | [] => Throw ("No WHERE condition defined for DELETE operation on " ++ tbl
                     ++ " with businessType=" ++ bt_text bt)
      | _ :: _ => Ok (mkStmt ("DELETE FROM " ++ tbl ++ " WHERE " ++ eq_placeholders wf " AND ") wv)
      end
  end.

(** [typeof data === 'string' && data.trim().startsWith('<')] *)
Definition looks_like_xml (s : string) : bool :=
  match js_trim (str s) with
  | c :: _ => Ascii.eqb c "<"%char
  | [] => false
  end.

(** The statement [executeAdvancedSyncOperation] hands to the database
    (before [await dbManager.executeQuery]). *)
Definition executeAdvancedSyncOperation (tbl op : string) (data : jsval) (bt : option string)
  : outcome stmt :=
  let parsed :=
    match data with
    | JStr s => if looks_like_xml s then JObj (parseXMLToObject s) else data
    | _ => data
    end in
  match parsed with
  | JObj d =>
      let u := js_upper op in
      if String.eqb u "INSERT" then Ok (insert_stmt tbl d)
      else if String.eqb u "UPDATE" then update_stmt tbl bt d
      else if String.eqb u "DELETE" then delete_stmt tbl bt d
      else Throw ("Unsupported operation: " ++ op)
  | _ => Throw "Invalid data format for sync operation"
  end.

(** ** Legacy path: syncService.processSyncData -> handleUpdate / handleDelete *)

Definition getWhereFields (tbl : string) : list string :=
  if String.eqb tbl "SalesDetail" then ["InvoiceNo"; "StockId"]
  else if String.eqb tbl "StockItems" then ["StockId"]
  else if String.eqb tbl "Sales" then ["InvoiceNo"; "TransactionDate"]
  else if String.eqb tbl "MenuItem" then ["ItemCode"]
  else if String.eqb tbl "SubMenuLinkDetail" then ["ItemCode"; "SubItemCode"]
  else ["ID"].

(** Property read on any value; the fields read here are absent on
    non-objects. *)
Definition jv_get (v : jsval) (k : string) : jsval :=
  match v with JObj o => obj_get o k | _ => JUndefined end.

Definition defined (v : jsval) : bool :=
  match v with JUndefined | JNull => false | _ => true end.

Definition buildWhereCondition (tbl : string) (data : jsval) (isOldData : bool) : obj :=
  let source :=
    if isOldData && js_truthy (jv_get data "old") then
      js_or (jv_get (jv_get data "old") "deleted") (jv_get data "old")
    else if negb isOldData && js_truthy (jv_get data "new") then
      js_or (jv_get (jv_get data "new") "inserted") (jv_get data "new")
    else if js_truthy (jv_get data "new") && negb (js_truthy (jv_get data "old")) then
      js_or (jv_get (jv_get data "new") "inserted") (jv_get data "new")
    else data in
  let wc := fold_left (fun w f => if defined (jv_get source f) then obj_set w f (jv_get source f) else w)
                      (getWhereFields tbl) [] in
  match wc with
  | [] => match jv_get source "ID" with JUndefined => [] | v => [("ID", v)] end
  | _ => wc
  end.

(** The WHERE columns of the legacy UPDATE / DELETE (handleUpdate and
    handleDelete reject an empty condition). *)
Definition legacy_where (tbl : string) (data : jsval) (isOldData : bool) : outcome (list string) :=
  match buildWhereCondition tbl data isOldData with
  | [] => Throw ("WHERE condition is required for " ++ (if isOldData then "UPDATE" else "DELETE")
                 ++ " operation on " ++ tbl ++ ". Required fields: " ++ join ", " (getWhereFields tbl))
  | wc => Ok (obj_keys wc)
  end.

(** ** Legacy path: getUpdateData, handleInsert, handleUpdate, handleDelete *)

Definition nl : string := String (ascii_of_nat 10) EmptyString.

(** Decimal digits of a natural number, as [String(n)] writes them. *)
Fixpoint dec_fuel (fuel n : nat) (acc : string) : string :=
  match fuel with
  | O => acc
  | S f =>
      let acc' := String (ascii_of_nat (48 + n mod 10)) acc in
      if (n <? 10)%nat then acc' else dec_fuel f (n / 10) acc'
  end.

Definition nat_dec (n : nat) : string := dec_fuel (S n) n EmptyString.

(** [delete o[k]] *)
Definition obj_delete (o : obj) (k : string) : obj :=
  filter (fun p => negb (String.eqb (fst p) k)) o.

(** [delete v[k]] on any non-nullish value: only an object loses a
    property (a string's index properties are read-only and the delete
    is ignored in sloppy mode; the keys deleted here are never indices). *)
Definition jv_delete (v : jsval) (k : string) : jsval :=
  match v with JObj o => JObj (obj_delete o k) | _ => v end.

(** The own enumerable properties seen by [Object.keys] / [Object.values]:
    an object's properties, a string's indices with its characters, none
    for a number or a boolean; [undefined] and [null] make them throw. *)
Definition own_entries (v : jsval) : outcome obj :=
  match v with
  | JUndefined | JNull => Throw "Cannot convert undefined or null to object"
  | JBool _ | JNum _ => Ok []
  | JStr s =>
      Ok (combine (map nat_dec (seq 0 (length (str s))))
                  (map (fun c => JStr (String c EmptyString)) (str s)))
  | JObj o => Ok o
  end.

(** [getUpdateData(tableName, data)] on the validated [Data] object.
    In the first branch [updateData] is [data.new.inserted || data.new]
    itself, so the deletes below also remove the fields from [Data]; no
    caller reads [Data] afterwards. *)
Definition getUpdateData (tbl : string) (data : obj) : jsval :=
  let u :=
    if js_truthy (obj_get data "new") then
      js_or (jv_get (obj_get data "new") "inserted") (obj_get data "new")
    else if js_truthy (obj_get data "ID") then JObj (obj_delete data "ID")
    else JObj (obj_delete data "_key") in
  fold_left jv_delete (getWhereFields tbl) u.

(** The result of [dbManager.executeQuery]: [affectedRows], or a rejected
    promise with the MySQL error [code] and [message]. *)
Inductive db_result : Type :=
| DbOk (affectedRows : Z)
| DbFail (code msg : string).

Definition legacy_insert_stmt (tbl : string) (data : obj) : stmt :=
  mkStmt (nl ++ "                INSERT INTO " ++ bq tbl ++ " (`" ++ join "`, `" (obj_keys data) ++ "`)"
          ++ nl ++ "                VALUES (" ++ join ", " (map (fun _ => "?") (obj_keys data)) ++ ")"
          ++ nl ++ "            ")
         (obj_values data).

(** What [handleUpdate] decides after the table check: an error, no
    statement ([{ rowsAffected: 0 }]), or the UPDATE it executes. *)
Definition legacy_update_plan (tbl : string) (data : obj) : outcome (option stmt) :=
  let wc := buildWhereCondition tbl (JObj data) true in
  let ud := getUpdateData tbl data in
  match wc with
  | [] => Throw ("WHERE condition is required for UPDATE operation on " ++ tbl
                 ++ ". Required fields: " ++ join ", " (getWhereFields tbl))
  | _ :: _ =>
      match own_entries ud with
      | Throw m => Throw m
      | Ok [] => Ok None
      | Ok ue =>
          Ok (Some (mkStmt (nl ++ "                UPDATE " ++ bq tbl ++ " " ++ nl
                            ++ "                SET " ++ eq_placeholders (obj_keys ue) ", " ++ nl
                            ++ "                WHERE " ++ eq_placeholders (obj_keys wc) " AND " ++ nl
                            ++ "            ")
                           (obj_values ue ++ obj_values wc)))
      end
  end.

Definition legacy_delete_plan (tbl : string) (data : obj) : outcome stmt :=
  match buildWhereCondition tbl (JObj data) false with
  | [] => Throw ("WHERE condition is required for DELETE operation on " ++ tbl
                 ++ ". Required fields: " ++ join ", " (getWhereFields tbl))
  | wc =>
      Ok (mkStmt (nl ++ "                DELETE FROM " ++ bq tbl ++ nl
                  ++ "                WHERE " ++ eq_placeholders (obj_keys wc) " AND " ++ nl
                  ++ "            ")
                 (obj_values wc))
  end.

(** The handlers against a database whose state [D] answers
    [tableExists] and runs statements. *)
Section LegacyHandlers.
Context {D : Type} (tableExists : D -> string -> bool) (exec : D -> stmt -> D * db_result).

Definition handleUpdate (db : D) (tbl : string) (data : obj) : D * outcome Z :=
  if negb (tableExists db tbl) then (db, Throw ("TABLE_NOT_EXISTS:" ++ tbl)) else
  match legacy_update_plan tbl data with
  | Throw m => (db, Throw m)
  | Ok None => (db, Ok 0%Z)
  | Ok (Some st) =>
      let (db', r) := exec db st in
      (db', match r with DbOk n => Ok n | DbFail _ m => Throw m end)
  end.

Definition handleDelete (db : D) (tbl : string) (data : obj) : D * outcome Z :=
  if negb (tableExists db tbl) then (db, Throw ("TABLE_NOT_EXISTS:" ++ tbl)) else
  match legacy_delete_plan tbl data with
  | Throw m => (db, Throw m)
  | Ok st =>
      let (db', r) := exec db st in
      (db', match r with DbOk n => Ok n | DbFail _ m => Throw m end)
  end.

(** [{ rowsAffected, operation, wasUpdate }] *)
Record insert_result := mkInsRes { rowsAffected : Z; operation : string; wasUpdate : bool }.

Definition handleInsert (db : D) (tbl : string) (data : obj) (isFullSync : bool)
  : D * outcome insert_result :=
  if negb (tableExists db tbl) then (db, Throw ("TABLE_NOT_EXISTS:" ++ tbl)) else
  let (db1, r) := exec db (legacy_insert_stmt tbl data) in
  match r with
  | DbOk n => (db1, Ok (mkInsRes n "INSERT" false))
  | DbFail code m =>
      if String.eqb code "ER_DUP_ENTRY" then
        if isFullSync then (db1, Ok (mkInsRes 0 "SKIP" false))
        else
          let (db2, u) := handleUpdate db1 tbl data in
          (db2, match u with Ok n => Ok (mkInsRes n "UPDATE" true) | Throw m' => Throw m' end)
      else (db1, Throw m)
  end.

(** The counters of the [full_data_sync_response] (and
    [initial_sync_data_response]) row loop. *)
Record batch_counts := mkCounts
  { successCount : nat; errorCount : nat; insertCount : nat; updateCount : nat; skipCount : nat }.

Definition count_row (c : batch_counts) (r : outcome insert_result) : batch_counts :=
  match r with
  | Throw _ => mkCounts (successCount c) (S (errorCount c)) (insertCount c) (updateCount c) (skipCount c)
  | Ok res =>
      let op := operation res in
      if String.eqb op "INSERT" then
        mkCounts (S (successCount c)) (errorCount c) (S (insertCount c)) (updateCount c) (skipCount c)
      else if String.eqb op "UPDATE" then
        mkCounts (S (successCount c)) (errorCount c) (insertCount c) (S (updateCount c)) (skipCount c)
      else if String.eqb op "SKIP" then
        mkCounts (S (successCount c)) (errorCount c) (insertCount c) (updateCount c) (S (skipCount c))
      else mkCounts (S (successCount c)) (errorCount c) (insertCount c) (updateCount c) (skipCount c)
  end.

Fixpoint full_sync_rows (db : D) (tbl : string) (rows : list obj) (c : batch_counts)
  : D * batch_counts :=
  match rows with
  | [] => (db, c)
  | row :: rest =>
      let (db', r) := handleInsert db tbl row true in
      full_sync_rows db' tbl rest (count_row c r)
  end.

Definition full_sync_batch (db : D) (tbl : string) (rows : list obj) : D * batch_counts :=
  full_sync_rows db tbl rows (mkCounts 0 0 0 0 0).

End LegacyHandlers.

(** ** Regular-expression replacement used by the DDL translator *)

(** A matcher tries a pattern at the start of the input and returns its
    capture groups and the remaining text.  Every pattern used below is a
    sequence in which each greedy quantifier is followed by a character
    its own class excludes (or by the end of the pattern), so the first
    attempt is the only possible match and no backtracking is modelled. *)
Definition matcher := chars -> option (list chars * chars).

Fixpoint strip_prefix_ci (p s : chars) : option chars :=
  match p, s with
  | [], _ => Some s
  | a :: p', b :: s' =>
      if Ascii.eqb (ascii_upper a) (ascii_upper b) then strip_prefix_ci p' s' else None
  | _ :: _, [] => None
  end.

(** A literal; [ci] for the [i] flag. *)
Definition m_lit (ci : bool) (p : string) : matcher :=
  fun s => match (if ci then strip_prefix_ci else strip_prefix) (str p) s with
           | Some r => Some ([], r)
           | None => None
           end.

(** [c+] for a character class [c]; [cap] when it is a capture group. *)
Definition m_plus (cap : bool) (c : ascii -> bool) : matcher :=
  fun s => match span c s with
           | ((_ :: _) as a, r) => Some (if cap then [a] else [], r)
           | ([], _) => None
           end.

Definition m_seq (m1 m2 : matcher) : matcher :=
  fun s => match m1 s with
           | Some (c1, r1) =>
               match m2 r1 with
               | Some (c2, r2) => Some ((c1 ++ c2)%list, r2)
               | None => None
               end
           | None => None
           end.

(** [(a|b)]: a capture group of two literal alternatives, tried in order. *)
Definition m_alt_cap (ci : bool) (a b : string) : matcher :=
  fun s => match m_lit ci a s with
           | Some (_, r) => Some ([str a], r)
           | None => match m_lit ci b s with
                     | Some (_, r) => Some ([str b], r)
                     | None => None
                     end
           end.

Fixpoint m_all (ms : list matcher) : matcher :=
  match ms with
  | [] => fun s => Some ([], s)
  | m :: r => m_seq m (m_all r)
  end.

Definition is_digit (c : ascii) : bool :=
  let n := nat_of_ascii c in ((48 <=? n) && (n <=? 57))%nat.
Definition is_letter (c : ascii) : bool :=
  let n := nat_of_ascii (ascii_upper c) in ((65 <=? n) && (n <=? 90))%nat.
Definition not_char (d : ascii) (c : ascii) : bool := negb (Ascii.eqb c d).

(** [str.replace(/re/g, repl)]: scan left to right, replace every match and
    resume after it.  All patterns here consume at least one character. *)
Fixpoint replace_fuel (fuel : nat) (m : matcher) (repl : list chars -> chars) (s : chars) : chars :=
  match fuel with
  | O => s
  | S f =>
      match s with
      | [] => []
      | c :: r =>
          match m s with
          | Some (caps, rest) => (repl caps ++ replace_fuel f m repl rest)%list
          | None => c :: replace_fuel f m repl r
          end
      end
  end.

Definition replace_all (m : matcher) (repl : list chars -> chars) (s : chars) : chars :=
  replace_fuel (length s) m repl s.

Definition cap (n : nat) (caps : list chars) : chars := nth n caps [].
Definition lit_repl (r : string) : list chars -> chars := fun _ => str r.

(** ** convertSqlServerDDLToMySQL (app.js) *)

Definition ws := m_plus false is_js_space.
Definition bracket_ident := m_all [m_lit false "["; m_plus true (not_char "]"%char); m_lit false "]"].

Definition type_conversions (s : chars) : chars :=
  let s := replace_all (m_lit true "[dbo].") (lit_repl "") s in
  let s := replace_all (m_all [m_lit true "[NVARCHAR]("; m_plus true is_digit; m_lit true ")"])
                       (fun c => (str "VARCHAR(" ++ cap 0 c ++ str ")")%list) s in
  let s := replace_all (m_lit true "NVARCHAR(MAX)") (lit_repl "TEXT") s in
  let s := replace_all (m_all [m_lit true "NVARCHAR("; m_plus true is_digit; m_lit true ")"])
                       (fun c => (str "VARCHAR(" ++ cap 0 c ++ str ")")%list) s in
  let s := replace_all (m_lit true "NTEXT") (lit_repl "TEXT") s in
  let s := replace_all (m_lit true "BIT") (lit_repl "BOOLEAN") s in
  let s := replace_all (m_lit true "DATETIME2") (lit_repl "DATETIME") s in
  let s := replace_all (m_lit true "UNIQUEIDENTIFIER") (lit_repl "VARCHAR(36)") s in
  let s := replace_all (m_all [m_lit true "BIGINT"; ws; m_lit true "IDENTITY(1,1)"])
                       (lit_repl "BIGINT AUTO_INCREMENT") s in
  let s := replace_all (m_all [m_lit true "INT"; ws; m_lit true "IDENTITY(1,1)"])
                       (lit_repl "INT AUTO_INCREMENT") s in
  let s := replace_all (m_lit true "GETDATE()") (lit_repl "NOW()") s in
  replace_all (m_lit true "NEWID()") (lit_repl "UUID()") s.

Definition charset := " CHARACTER SET utf8mb4 COLLATE utf8mb4_0900_ai_ci".

(** The four ADD patterns, in the order they are tried. *)
Definition add_pattern1 := m_all [m_lit true "Add"; ws; bracket_ident; ws; m_plus true is_letter;
                                  m_lit true "("; m_plus true is_digit; m_lit true ")"; ws;
                                  m_alt_cap true "NULL" "NOT NULL"].
Definition add_repl1 (c : list chars) : chars :=
  (str "ADD COLUMN `" ++ cap 0 c ++ str "` " ++ cap 1 c ++ str "(" ++ cap 2 c ++ str ")"
   ++ str charset ++ str " " ++ cap 3 c)%list.
Definition add_pattern2 := m_all [m_lit true "Add"; ws; bracket_ident; ws; m_plus true is_letter;
                                  m_lit true "("; m_plus true is_digit; m_lit true ")"].
Definition add_repl2 (c : list chars) : chars :=
  (str "ADD COLUMN `" ++ cap 0 c ++ str "` " ++ cap 1 c ++ str "(" ++ cap 2 c ++ str ")"
   ++ str charset)%list.
Definition add_pattern3 := m_all [m_lit true "Add"; ws; bracket_ident; ws; m_plus true is_letter; ws;
                                  m_alt_cap true "NULL" "NOT NULL"].
Definition add_repl3 (c : list chars) : chars :=
  (str "ADD COLUMN `" ++ cap 0 c ++ str "` " ++ cap 1 c ++ str charset ++ str " " ++ cap 2 c)%list.
Definition add_pattern4 := m_all [m_lit true "Add"; ws; bracket_ident; ws; m_plus true is_letter].
Definition add_repl4 (c : list chars) : chars :=
  (str "ADD COLUMN `" ++ cap 0 c ++ str "` " ++ cap 1 c ++ str charset)%list.

(** [/\[([^\]]+)\]/g] -> backtick quoting *)
Definition quote_identifiers (s : chars) : chars :=
  replace_all bracket_ident (fun c => (str "`" ++ cap 0 c ++ str "`")%list) s.

Definition chars_eqb (a b : chars) : bool := String.eqb (string_of_list_ascii a) (string_of_list_ascii b).

(** [null] is [None]. *)
Definition convertSqlServerDDLToMySQL (sqlCommand tableName operation : string) : option string :=
  let cmd := str sqlCommand in
  match cmd with
  | [] => None
  | _ :: _ =>
      let upper := js_trim (map ascii_upper cmd) in
      if String.eqb operation "DDL_ALTER_TABLE" then
        let d := type_conversions cmd in
        if includes (str "ADD COLUMN") upper || includes (str "ADD ") upper then
          let d1 := replace_all add_pattern1 add_repl1 d in
          if negb (chars_eqb d1 d) then Some (string_of_list_ascii d1) else
          let d2 := replace_all add_pattern2 add_repl2 d in
          if negb (chars_eqb d2 d) then Some (string_of_list_ascii d2) else
          let d3 := replace_all add_pattern3 add_repl3 d in
          if negb (chars_eqb d3 d) then Some (string_of_list_ascii d3) else
          let d4 := replace_all add_pattern4 add_repl4 d in
          Some (string_of_list_ascii d4)
        else if includes (str "DROP COLUMN") upper then
          let d := replace_all (m_lit true "dbo.") (lit_repl "") d in
          let d := replace_all (m_all [m_lit true "DROP"; ws; bracket_ident])
                               (fun c => (str "DROP COLUMN `" ++ cap 0 c ++ str "`")%list) d in
          let d := replace_all (m_all [m_lit true "DROP"; ws; m_lit true "COLUMN"; ws;
                                       m_plus true (fun c => negb (is_js_space c))])
                               (fun c => (str "DROP COLUMN `" ++ cap 0 c ++ str "`")%list) d in
          Some (string_of_list_ascii d)
        else if includes (str "MODIFY") upper || includes (str "ALTER COLUMN") upper then
          Some (string_of_list_ascii (replace_all (m_lit true "ALTER COLUMN") (lit_repl "MODIFY COLUMN") d))
        else if includes (str "SET (LOCK_ESCALATION") upper || includes (str "SET (LOCK ESCALATION") upper then
          None
        else Some (string_of_list_ascii d)
      else
        (* DDL_DROP_TABLE and every other operation *)
        Some (string_of_list_ascii
                (quote_identifiers (replace_all (m_lit true "[dbo].") (lit_repl "") cmd)))
  end.

(** ** CSV import coercion: buildColumnMappings (syncService.js) *)

(** The WHEN branches of the generated [CASE], in the order the template
    writes them; [ELSE TRIM(@v)] always closes it. *)
Inductive case_branch : Type :=
| BNullOrBlank      (* @v IS NULL OR TRIM(@v) = ''  -> NULL *)
| BBooleanWord      (* LOWER(TRIM(@v)) IN ('true', ..., 'off') -> 1 / 0 *)
| BSentinelDate     (* LIKE '1899-12-30%', '1900-01-01T00:00:00.000Z', '0000-00-00' -> NULL *)
| BIsoDatetime      (* ^dddd-dd-ddTdd:dd:dd -> STR_TO_DATE(SUBSTRING(@v,1,19), ...) *)
| BSpaceDatetime    (* ^dddd-dd-dd dd:dd:dd -> STR_TO_DATE(@v, ...) *)
| BDateOnly         (* ^dddd-dd-dd$ -> STR_TO_DATE(@v, '%Y-%m-%d') *)
| BInteger          (* ^-?d+$ -> CAST(@v AS SIGNED) *)
| BDecimal.         (* ^-?d+.d+$ (see re_decimal) -> CAST(@v AS DECIMAL(18,4)) *)

Record set_statement := mkSet { set_column : string; set_var : string; set_branches : list case_branch }.

Definition is_protected_column (tableCol : string) : bool :=
  String.eqb tableCol "StockId" || String.eqb tableCol "ItemCode".

Definition case_branches (isProtected : bool) : list case_branch :=
  [BNullOrBlank]
  ++ (if isProtected then [] else [BBooleanWord])
  ++ [BSentinelDate; BIsoDatetime; BSpaceDatetime; BDateOnly]
  ++ (if isProtected then [] else [BInteger; BDecimal]).

(** [csvCol.replace(/[^a-zA-Z0-9]/g, '_')] *)
Definition sanitize (h : string) : string :=
  string_of_list_ascii (map (fun c => if is_letter c || is_digit c then c else "_"%char) (str h)).

Record column_mappings := mkMappings { csvColumns : list string; setStatements : list set_statement }.

Definition buildColumnMappings (csvHeaders tableColumns : list string) : column_mappings :=
  let vars := map (fun h => "@" ++ sanitize h) csvHeaders in
  mkMappings vars
    (flat_map (fun '(tableCol, index) =>
                 if (index <? length csvHeaders)%nat then
                   [mkSet tableCol (nth index vars "") (case_branches (is_protected_column tableCol))]
                 else [])
              (combine tableColumns (seq 0 (length tableColumns)))).

(** Values produced by the [CASE]. *)
Inductive sql_result : Type :=
| RNull
| RInt (z : Z)
| RDecimal (text : chars)
| RDate (text : chars)
| RText (text : chars).

(** MySQL [TRIM]: leading and trailing spaces. *)
Definition sql_trim (s : chars) : chars :=
  rev (drop_while (fun c => Ascii.eqb c " "%char) (rev (drop_while (fun c => Ascii.eqb c " "%char) s))).

Definition ascii_lower (c : ascii) : ascii :=
  let n := nat_of_ascii c in
  if ((65 <=? n) && (n <=? 90))%nat then ascii_of_nat (n + 32) else c.

(** Comparisons under the case-insensitive column collation. *)
Definition ci_eqb (a b : chars) : bool := chars_eqb (map ascii_upper a) (map ascii_upper b).
Definition ci_prefix (p s : chars) : bool :=
  match strip_prefix_ci p s with Some _ => true | None => false end.

(** [d{n}] followed by the rest of a pattern *)
Fixpoint digits_then (n : nat) (s : chars) : option chars :=
  match n, s with
  | O, _ => Some s
  | S m, c :: r => if is_digit c then digits_then m r else None
  | S _, [] => None
  end.

Definition lit_then (c : ascii) (s : chars) : option chars :=
  match s with d :: r => if Ascii.eqb (ascii_upper c) (ascii_upper d) then Some r else None | [] => None end.

Definition date_prefix (s : chars) : option chars :=
  match digits_then 4 s with
  | Some r1 => match lit_then "-" r1 with
               | Some r2 => match digits_then 2 r2 with
                            | Some r3 => match lit_then "-" r3 with
                                         | Some r4 => digits_then 2 r4
                                         | None => None end
                            | None => None end
               | None => None end
  | None => None
  end.

Definition time_prefix (sep : ascii) (s : chars) : option chars :=
  match lit_then sep s with
  | Some r0 => match digits_then 2 r0 with
     | Some r1 => match lit_then ":" r1 with
        | Some r2 => match digits_then 2 r2 with
           | Some r3 => match lit_then ":" r3 with
              | Some r4 => digits_then 2 r4
              | None => None end
           | None => None end
        | None => None end
     | None => None end
  | None => None
  end.

Definition re_datetime (sep : ascii) (s : chars) : bool :=
  match date_prefix s with
  | Some r => match time_prefix sep r with Some _ => true | None => false end
  | None => false
  end.

Definition re_date_only (s : chars) : bool :=
  match date_prefix s with Some [] => true | _ => false end.

Definition all_digits1 (s : chars) : bool :=
  match s with [] => false | _ => forallb is_digit s end.

Definition strip_minus (s : chars) : chars :=
  match s with c :: r => if Ascii.eqb c "-"%char then r else s | [] => [] end.

Definition re_integer (s : chars) : bool := all_digits1 (strip_minus s).

(** The template writes [\\.] in the JavaScript source, so the SQL text
    carries [\.] inside a string literal, where MySQL drops the backslash
    of an unknown escape: the pattern MySQL compiles is [^-?[0-9]+.[0-9]+$],
    whose [.] is any character but a line terminator.  Digits, one such
    character, digits: some split point must work. *)
Definition is_line_terminator (c : ascii) : bool :=
  let n := nat_of_ascii c in ((10 <=? n) && (n <=? 13))%nat || Nat.eqb n 133.

Definition re_decimal (s : chars) : bool :=
  let t := strip_minus s in
  existsb (fun k => all_digits1 (firstn k t)
                    && match skipn k t with
                       | c :: frac => negb (is_line_terminator c) && all_digits1 frac
                       | [] => false
                       end)
          (seq 1 (length t)).

Definition digits_value (s : chars) : Z :=
  fold_left (fun acc c => (acc * 10 + Z.of_nat (nat_of_ascii c - 48))%Z) s 0%Z.

(** [CAST(@v AS SIGNED)] on a string matching the integer pattern. *)
Definition cast_signed (s : chars) : Z :=
  match s with
  | c :: r => if Ascii.eqb c "-"%char then Z.opp (digits_value r) else digits_value s
  | [] => 0%Z
  end.

Definition bool_words := map str ["true"; "false"; "yes"; "no"; "y"; "n"; "on"; "off"].
Definition true_words := map str ["true"; "yes"; "y"; "on"].

(** One [WHEN]: [Some r] when the branch fires with result [r]. *)
Definition eval_branch (b : case_branch) (v : chars) : option sql_result :=
  match b with
  | BNullOrBlank => match sql_trim v with [] => Some RNull | _ => None end
  | BBooleanWord =>
      let w := map ascii_lower (sql_trim v) in
      if existsb (ci_eqb w) bool_words then
        Some (RInt (if existsb (ci_eqb w) true_words then 1 else 0)%Z)
      else None
  | BSentinelDate =>
      if ci_prefix (str "1899-12-30") v || ci_eqb v (str "1900-01-01T00:00:00.000Z")
         || ci_eqb v (str "0000-00-00") then Some RNull else None
  | BIsoDatetime => if re_datetime "T"%char v then Some (RDate (firstn 19 v)) else None
  | BSpaceDatetime => if re_datetime " "%char v then Some (RDate v) else None
  | BDateOnly => if re_date_only v then Some (RDate v) else None
  | BInteger => if re_integer v then Some (RInt (cast_signed v)) else None
  | BDecimal => if re_decimal v then Some (RDecimal v) else None
  end.

(** The [CASE] on the user variable's value ([None] is SQL NULL). *)
Definition eval_case (bs : list case_branch) (v : option chars) : sql_result :=
  match v with
  | None => RNull
  | Some s =>
      match fold_right (fun b acc => match eval_branch b s with Some r => Some r | None => acc end) None bs with
      | Some r => r
      | None => RText (sql_trim s)
      end
  end.

(** ** License check: validateAdvancedReportLicense (licenseService.js) *)

Record store_row := mkStoreRow {
  StoreId : string;
  AdvancedReportAppId : string;
  AdvancedReportLicenseExpire : Z;  (* milliseconds since the epoch *)
  StoreName : string
}.

Record store_info := mkStoreInfo {
  si_storeId : string;
  si_storeName : string;
  si_appId : string;
  si_expireDate : Z;
  daysRemaining : Z
}.

Record validation := mkValidation {
  isValid : bool;
  isExpired : bool;
  error : option string;
  storeInfo : option store_info
}.

(** The license database as the service sees it. *)
Inductive license_db : Type :=
| DbUp (stores : list store_row)
| DbInitFails
| DbQueryFails (msg : string).

Definition day_ms : Z := 1000 * 60 * 60 * 24.

(** [Math.ceil(a / b)] for integers (b > 0). *)
Definition ceil_div (a b : Z) : Z := - ((- a) / b).

Definition row_matches (storeId appId : string) (r : store_row) : bool :=
  String.eqb (StoreId r) storeId && String.eqb (AdvancedReportAppId r) appId.

Definition validateAdvancedReportLicense (db : license_db) (storeId appId : string) (now : Z) : validation :=
  match db with
  | DbInitFails => mkValidation false true (Some "Database connection failed") None
  | DbQueryFails m => mkValidation false true (Some m) None
  | DbUp stores =>
      match filter (row_matches storeId appId) stores with
      | [] => mkValidation false true (Some "Store not found or invalid AppId") None
      | store :: _ =>
          let expire := AdvancedReportLicenseExpire store in
          let expired := (expire <=? now)%Z in
          mkValidation (negb expired) expired None
            (Some (mkStoreInfo (StoreId store) (StoreName store) (AdvancedReportAppId store) expire
                     (if expired then 0%Z else ceil_div (expire - now) day_ms)))
      end
  end.

(** [getDatabaseByStoreAndApp]: the appId when the pair exists. *)
Definition getDatabaseByStoreAndApp (db : license_db) (storeId appId : option string) : option string :=
  match db, storeId, appId with
  | DbUp stores, Some s, Some a =>
      match filter (row_matches s a) stores with [] => None | _ => Some a end
  | _, _, _ => None
  end.

(** ** Target store: MySQL [INSERT ... ON DUPLICATE KEY UPDATE] *)

(** Equality of stored values (used for key comparison). *)
Fixpoint jsval_eqb (a b : jsval) : bool :=
  match a, b with
  | JUndefined, JUndefined | JNull, JNull => true
  | JBool x, JBool y => Bool.eqb x y
  | JNum x, JNum y => Z.eqb x y
  | JStr x, JStr y => String.eqb x y
  | JObj xs, JObj ys =>
      (fix go (xs ys : list (string * jsval)) : bool :=
         match xs, ys with
         | [], [] => true
         | (k1, v1) :: r1, (k2, v2) :: r2 => String.eqb k1 k2 && jsval_eqb v1 v2 && go r1 r2
         | _, _ => false
         end) xs ys
  | _, _ => false
  end.












(** ** The per-connection session (io.on('connection') in app.js) *)

(** A JavaScript [Map] with number keys: insertion order, [set] on an
    existing key keeps its slot. *)
Fixpoint map_set {V : Type} (m : list (nat * V)) (k : nat) (v : V) : list (nat * V) :=
  match m with
  | [] => [(k, v)]
  | (k', v') :: r => if Nat.eqb k k' then (k', v) :: r else (k', v') :: map_set r k v
  end.

Fixpoint map_get {V : Type} (m : list (nat * V)) (k : nat) : option V :=
  match m with
  | [] => None
  | (k', v) :: r => if Nat.eqb k k' then Some v else map_get r k
  end.

(** The same with string keys. *)
Fixpoint smap_set {V : Type} (m : list (string * V)) (k : string) (v : V) : list (string * V) :=
  match m with
  | [] => [(k, v)]
  | (k', v') :: r => if String.eqb k k' then (k', v) :: r else (k', v') :: smap_set r k v
  end.

Fixpoint smap_get {V : Type} (m : list (string * V)) (k : string) : option V :=
  match m with
  | [] => None
  | (k', v) :: r => if String.eqb k k' then Some v else smap_get r k
  end.

Fixpoint smap_delete {V : Type} (m : list (string * V)) (k : string) : list (string * V) :=
  match m with
  | [] => []
  | (k', v) :: r => if String.eqb k k' then r else (k', v) :: smap_delete r k
  end.

(** An entry of [csvChunkStorage]. *)
Record upload := mkUpload {
  up_appId : option string;
  up_tableName : string;
  up_fileName : string;
  up_totalChunks : nat;
  up_chunks : list (nat * string)   (* chunkIndex -> base64 content *)
}.

Record session := mkSession {
  s_storeId : option string;       (* socket.storeId; None is undefined *)
  s_appId : option string;
  s_serviceType : option string;
  s_licenseInfo : option store_info;
  s_chunkStorage : list (string * upload);
  s_files : list (string * list Byte.byte)   (* the uploads directory *)
}.

Definition new_session : session := mkSession None None None None [] [].

Record outbound := mkOut { out_event : string; out_success : option bool; out_code : option Z }.

(** What a handler does, in order: emit to the peer, close the connection
    (after a delay, 0 for an immediate [socket.disconnect(true)]), or
    schedule the CSV import of a reassembled file. *)
Inductive action : Type :=
| Emit (o : outbound)
| DisconnectAfter (ms : Z)
| ScheduleImport (ms : Z) (storeId appId : option string) (tableName fileName : string).

Definition emit (ev : string) (ok : option bool) : action := Emit (mkOut ev ok None).

(** Results of [syncService.processSyncData] on the legacy path. *)
Inductive legacy_result : Type :=
| LegacyOk
| LegacyFail
| LegacyTableMissing.   (* rethrown TABLE_NOT_EXISTS error *)

(** The collaborators a handler calls, by their results. *)
Record env := mkEnv {
  env_db : license_db;                     (* the stores table *)
  env_now : Z;                             (* wall clock, ms *)
  env_exec : string -> stmt -> bool;       (* dbManager.executeQuery succeeds *)
  env_legacy : jsval -> legacy_result;     (* syncService.processSyncData *)
  env_ok : string -> string -> bool;       (* other database / file operations, by name and table *)
  env_decode : string -> list Byte.byte         (* Buffer.from(chunk, 'base64') *)
}.

Inductive inbound : Type :=
| EvIdentify (storeId appId serviceType : option string)
| EvSyncData (appId storeId : option string) (tableName operation : string) (recordData : jsval)
             (businessType : option string)
| EvTableSchemaResponse (tableName : string)
| EvFullDataSyncResponse (tableName : string) (isLastBatch : bool)
| EvBatchSync (items : list jsval)
| EvPing
| EvSyncDdl (storeId appId : option string) (tableName operation sqlCommand : string)
| EvVerifyAndSyncTable (tableName : string)
| EvCreateTableFromSchema (tableName : string) (isInitialSync : bool)
| EvInitialSyncDataResponse (tableName : string) (isLastBatch : bool)
| EvForceSyncRequest (act : string)
| EvCsvUploadStart (tableName fileName : string) (totalChunks : nat)
| EvCsvUploadChunk (tableName fileName : string) (chunkIndex totalChunks : nat) (chunkContent : string)
| EvClearDatabaseTables
| EvCsvBulkUpload (tableName fileName fileContent : string)
| EvDisconnect.

Definition opt_truthy (o : option string) : bool :=
  match o with Some v => negb (String.eqb v "") | None => false end.

(** [socket.storeId && socket.appId] *)
Definition is_identified (s : session) : bool := opt_truthy (s_storeId s) && opt_truthy (s_appId s).

Definition db_for (e : env) (s : session) : option string :=
  getDatabaseByStoreAndApp (env_db e) (s_storeId s) (s_appId s).

(** [`${socket.appId}_${fileName}`] *)
Definition chunk_key (appId : option string) (fileName : string) : string :=
  match appId with Some a => a | None => "undefined" end ++ "_" ++ fileName.

(** The text of a present value. *)
Definition key_text_or (o : option string) : string := match o with Some v => v | None => "" end.

(** [serviceType === 'advanced_online_report'] *)
Definition is_advanced (serviceType : option string) : bool :=
  match serviceType with Some t => String.eqb t "advanced_online_report" | None => false end.

Definition handle_identify (e : env) (s : session) (storeId appId serviceType : option string)
  : session * list action :=
  let bind (lic : option store_info) :=
    (mkSession storeId appId serviceType lic (s_chunkStorage s) (s_files s),
     [emit "identified" (Some true)]) in
  if is_advanced serviceType then
    if negb (opt_truthy storeId) || negb (opt_truthy appId) then
      (s, [Emit (mkOut "license_error" (Some false) (Some 400%Z)); DisconnectAfter 0])
    else
      let v := validateAdvancedReportLicense (env_db e) (key_text_or storeId) (key_text_or appId) (env_now e) in
      if negb (isValid v) || isExpired v then
        (s, [Emit (mkOut "license_expired" (Some false) (Some 410%Z)); DisconnectAfter 1000])
      else bind (storeInfo v)
  else bind (s_licenseInfo s).

(** The sequential write loop: [for (let i = 0; i < totalChunks; i++)],
    throwing on the first chunk that is absent or empty ([!chunk]).  The
    result is the bytes written, and whether the loop completed. *)
Fixpoint write_chunks (decode : string -> list Byte.byte) (chunks : list (nat * string))
         (idx : list nat) : list Byte.byte * bool :=
  match idx with
  | [] => ([], true)
  | i :: r =>
      match map_get chunks i with
      | Some c =>
          if String.eqb c "" then ([], false)
          else let (bs, ok) := write_chunks decode chunks r in ((decode c ++ bs)%list, ok)
      | None => ([], false)
      end
  end.

(** socket.on('csv_bulk_upload_chunk') *)
Definition handle_chunk (e : env) (s : session) (fileName : string) (chunkIndex totalChunks : nat)
           (chunkContent : string) : session * list action :=
  let key := chunk_key (s_appId s) fileName in
  match smap_get (s_chunkStorage s) key with
  | None => (s, [])
  | Some up =>
      let up' := mkUpload (up_appId up) (up_tableName up) (up_fileName up) (up_totalChunks up)
                          (map_set (up_chunks up) chunkIndex chunkContent) in
      let storage := smap_set (s_chunkStorage s) key up' in
      let s1 := mkSession (s_storeId s) (s_appId s) (s_serviceType s) (s_licenseInfo s) storage (s_files s) in
      if Nat.eqb (length (up_chunks up')) totalChunks then
        let (bytes, ok) := write_chunks (env_decode e) (up_chunks up') (seq 0 totalChunks) in
        let files := smap_set (s_files s) fileName bytes in
        if ok then
          (mkSession (s_storeId s) (s_appId s) (s_serviceType s) (s_licenseInfo s)
                     (smap_delete storage key) files,
           [emit "csv_bulk_upload_response" (Some true);
            ScheduleImport 2000 (s_storeId s) (up_appId up') (up_tableName up') (up_fileName up')])
        else
          (mkSession (s_storeId s) (s_appId s) (s_serviceType s) (s_licenseInfo s) storage files,
           [emit "csv_bulk_upload_response" (Some false)])
      else (s1, [])
  end.

(** One event, handled to completion. *)
Definition handle (e : env) (s : session) (ev : inbound) : session * list action :=
  match ev with
  | EvIdentify storeId appId serviceType => handle_identify e s storeId appId serviceType
  | EvSyncData appId storeId tbl op recordData bt =>
      if opt_truthy appId && opt_truthy storeId then
        (* processAdvancedSyncData: routed by the event's own appId/storeId *)
        let ok :=
          match getDatabaseByStoreAndApp (env_db e) storeId appId with
          | None => false
          | Some db =>
              match executeAdvancedSyncOperation tbl op recordData bt with
              | Ok st => env_exec e db st
              | Throw _ => false
              end
          end in
        (s, [emit "sync_response" (Some ok)])
      else
        match env_legacy e recordData with
        | LegacyOk => (s, [emit "sync_response" (Some true)])
        | LegacyFail => (s, [emit "sync_response" (Some false)])
        | LegacyTableMissing => (s, [emit "request_table_schema" None])
        end
  | EvTableSchemaResponse tbl =>
      if negb (is_identified s) then (s, [emit "table_schema_error" None]) else
      match db_for e s with
      | None => (s, [emit "table_schema_error" None])
      | Some _ =>
          if env_ok e "createTableWithSchema" tbl then (s, [emit "request_full_data_sync" None])
          else (s, [emit "table_created" (Some false)])
      end
  | EvFullDataSyncResponse tbl isLast =>
      if negb (is_identified s) then (s, [emit "full_data_sync_error" None]) else
      match db_for e s with
      | None => (s, [emit "full_data_sync_error" None])
      | Some _ =>
          (* per-row insert failures are counted, not thrown *)
          (s, emit "full_data_sync_progress" None
                :: (if isLast then [emit "full_data_sync_complete" (Some true);
                                    emit "sync_response" (Some true)] else []))
      end
  | EvBatchSync items =>
      (* per-item results, or the error form when a TABLE_NOT_EXISTS is
         rethrown: either way one batch_sync_response without [success] *)
      (s, [emit "batch_sync_response" None])
  | EvPing => (s, [emit "pong" None])
  | EvSyncDdl storeId appId tbl op cmd =>
      match getDatabaseByStoreAndApp (env_db e) storeId appId with
      | None => (s, [emit "ddl_sync_error" None])
      | Some db =>
          match convertSqlServerDDLToMySQL cmd tbl op with
          | None => (s, [emit "ddl_sync_success" None])
          | Some d =>
              if env_exec e db (mkStmt d []) then (s, [emit "ddl_sync_success" None])
              else (s, [emit "ddl_sync_error" None])
          end
      end
  | EvVerifyAndSyncTable tbl =>
      if negb (is_identified s) then (s, [emit "verify_and_sync_error" None]) else
      match db_for e s with
      | None => (s, [emit "verify_and_sync_error" None])
      | Some _ =>
          (s, emit "verify_and_sync_response" None
                :: (if env_ok e "tableExistsAndEmpty" tbl then [emit "csv_bulk_sync_request" None] else []))
      end
  | EvCreateTableFromSchema tbl isInitial =>
      if negb (is_identified s) then (s, [emit "table_creation_error" None]) else
      match db_for e s with
      | None => (s, [emit "table_creation_error" None])
      | Some _ =>
          if env_ok e "createTableWithSchema" tbl then
            (s, emit "table_created" (Some true)
                  :: (if isInitial then [emit "csv_bulk_sync_request" None] else []))
          else (s, [emit "table_created" (Some false)])
      end
  | EvInitialSyncDataResponse tbl isLast =>
      if negb (is_identified s) then (s, [emit "initial_sync_error" None]) else
      match db_for e s with
      | None => (s, [emit "initial_sync_error" None])
      | Some _ =>
          (s, emit "initial_sync_progress" None
                :: (if isLast then [emit "initial_sync_complete" (Some true)] else []))
      end
  | EvForceSyncRequest act =>
      if negb (is_identified s) then (s, [emit "force_sync_error" None]) else
      if String.eqb act "drop_all_tables" then
        match db_for e s with
        | None => (s, [emit "force_sync_error" None])
        | Some _ =>
            (* the drop loop logs the undeclared [machineName]: the
               ReferenceError reaches the outer catch *)
            (s, [emit "force_sync_response" (Some false)])
        end
      else (s, [emit "force_sync_response" (Some false)])
  | EvCsvUploadStart tbl fileName n =>
      (mkSession (s_storeId s) (s_appId s) (s_serviceType s) (s_licenseInfo s)
                 (smap_set (s_chunkStorage s) (chunk_key (s_appId s) fileName)
                           (mkUpload (s_appId s) tbl fileName n []))
                 (s_files s), [])
  | EvCsvUploadChunk _ fileName idx n content => handle_chunk e s fileName idx n content
  | EvClearDatabaseTables =>
      if negb (is_identified s) then (s, [emit "clear_database_response" (Some false)]) else
      match db_for e s with
      | None => (s, [emit "clear_database_response" (Some false)])
      | Some _ => (s, [emit "clear_database_response" (Some (env_ok e "clearTables" ""))])
      end
  | EvCsvBulkUpload tbl fileName content =>
      (* handleCSVBulkUpload(socket.appId, ...), then the awaited import;
         progress callbacks are not modelled *)
      if env_ok e "handleCSVBulkUpload" tbl then
        (s, [emit "csv_bulk_upload_response" (Some true);
             emit "csv_file_import_complete" (Some (env_ok e "processSingleCSVFile" tbl))])
      else (s, [emit "csv_bulk_upload_response" (Some false)])
  | EvDisconnect => (s, [])
  end.

(** A sequence of events on one connection. *)
Fixpoint run (e : env) (s : session) (evs : list inbound) : session * list action :=
  match evs with
  | [] => (s, [])
  | ev :: r =>
      let (s1, a1) := handle e s ev in
      let (s2, a2) := run e s1 r in
      (s2, (a1 ++ a2)%list)
  end.

(** The handlers that never read [socket.storeId] / [socket.appId] before
    doing their work. *)
Definition unchecked_event (ev : inbound) : bool :=
  match ev with
  | EvSyncData _ _ _ _ _ _ | EvBatchSync _ | EvSyncDdl _ _ _ _ _
  | EvCsvUploadChunk _ _ _ _ _ | EvCsvBulkUpload _ _ _ => true
  | _ => false
  end.

(** Responses a session may receive before it is identified. *)
Definition error_events : list string :=
  ["license_expired"; "license_error"; "identification_error"; "table_schema_error";
   "full_data_sync_error"; "verify_and_sync_error"; "table_creation_error"; "initial_sync_error";
   "force_sync_error"; "ddl_sync_error"].

Definition allowed_before_identification (a : action) : bool :=
  match a with
  | Emit o =>
      String.eqb (out_event o) "identified" || String.eqb (out_event o) "pong"
      || existsb (String.eqb (out_event o)) error_events
      || match out_success o with Some false => true | _ => false end
  | DisconnectAfter _ => true
  | ScheduleImport _ _ _ _ _ => false
  end.



(** ** Reference tables for the statements below *)

(** The primary-key policy table as the specification lists it, per
    (table, businessType); [None] for a pair the table does not list. *)
Definition spec_pk_policy (tbl : string) (bt : option string) : option (list string) :=
  if String.eqb tbl "Sales" then
    if bt_is bt "retail" then Some ["InvoiceNo"]
    else if bt_is bt "hospitality" then Some ["OrderNo"] else None
  else if String.eqb tbl "SalesDetail" then
    if bt_is bt "retail" then Some ["InvoiceNo"; "StockId"]
    else if bt_is bt "hospitality" then Some ["OrderNo"; "ItemCode"] else None
  else if String.eqb tbl "StockItems" then
    if bt_is bt "retail" then Some ["StockId"] else None
  else if String.eqb tbl "MenuItem" then
    if bt_is bt "hospitality" then Some ["ItemCode"] else None
  else if String.eqb tbl "SubMenuLinkDetail" then
    if bt_is bt "hospitality" then Some ["ItemCode"] else None
  else if String.eqb tbl "PaymentReceived" then
    if bt_is bt "retail" then Some ["InvoiceNo"; "Id"]
    else if bt_is bt "hospitality" then Some ["OrderNo"; "Id"] else None
  else if String.eqb tbl "Payment" then Some ["Payment"]
  else Some ["id"].

(** The minimal wire grammar of [recordData]: a sequence of
    [<tag>value</tag>] pairs, and the update form
    [<new>pairs</new><old>pairs</old>]. *)
Definition is_ident_char (c : ascii) : bool :=
  is_letter c || is_digit c || Ascii.eqb c "_"%char.

Definition render_pair (p : chars * chars) : chars :=
  ("<"%char :: fst p ++ ">"%char :: snd p ++ "<"%char :: "/"%char :: fst p ++ [">"%char])%list.

Definition render (ps : list (chars * chars)) : chars := concat (map render_pair ps).

Definition render_update (ps1 ps2 : list (chars * chars)) : chars :=
  (str "<new>" ++ render ps1 ++ str "</new>" ++ str "<old>" ++ render ps2 ++ str "</old>")%list.

(** A pair of the grammar: an identifier tag other than [new] and [old],
    and a value free of [<]. *)
Definition grammar_pair (p : chars * chars) : Prop :=
  fst p <> [] /\ forallb is_ident_char (fst p) = true
  /\ fst p <> str "new" /\ fst p <> str "old"
  /\ forallb (fun c => negb (Ascii.eqb c "<"%char)) (snd p) = true.

(** No occurrence of [p] starts inside [X], whatever text follows [X]. *)
Definition avoids (p X : chars) : Prop :=
  forall k b, (k < length X)%nat -> strip_prefix p (skipn k X ++ b)%list = None.

(** The flat entries [key, raw value] in document order. *)
Definition entries (prefix : string) (ps : list (chars * chars)) : list (string * chars) :=
  map (fun p => (prefix ++ string_of_list_ascii (fst p), snd p)) ps.

(** The trimmed value of the last entry for [k] whose trimmed value is not
    blank. *)
Definition last_value (es : list (string * chars)) (k : string) : option chars :=
  fold_left (fun acc (e : string * chars) =>
               if String.eqb (fst e) k then
                 match js_trim (snd e) with [] => acc | tv => Some tv end
               else acc) es None.

(** The value the flat map holds for [k]: that last non-blank value, as a
    string. *)
Definition flat_get (es : list (string * chars)) (k : string) : jsval :=
  match last_value es k with
  | Some tv => JStr (string_of_list_ascii tv)
  | None => JUndefined
  end.

(** An example deployment: one store [239] licensed to app [A] until
    2027-01-15, the clock at 2025-10-09, every legacy sync succeeding, and
    a database that refuses statements quoting identifiers with brackets
    (MySQL knows backticks only); base64 decoding maps each character to a
    zero byte, which is enough to track lengths and order. *)
Definition example_env : env :=
  mkEnv (DbUp [mkStoreRow "239" "A" 1800000000000 "Store 239"]) 1760000000000
        (fun _ st => negb (includes (str "[") (str (sql st))))
        (fun _ => LegacyOk) (fun _ _ => true)
        (fun c => map (fun _ => Byte.x00) (str c)).

(** ** Table creation from a client schema (syncService.js) *)

(** [String(z)] for an integer. *)
Definition z_dec (z : Z) : string :=
  match z with
  | Z0 => "0"
  | Zpos p => nat_dec (Pos.to_nat p)
  | Zneg p => "-" ++ nat_dec (Pos.to_nat p)
  end.

(** [String(v)], also the text a template literal inserts. *)
Definition js_string (v : jsval) : string :=
  match v with
  | JUndefined => "undefined"
  | JNull => "null"
  | JBool true => "true"
  | JBool false => "false"
  | JNum z => z_dec z
  | JStr s => s
  | JObj _ => "[object Object]"
  end.

(** An array element as [Array.prototype.join] writes it. *)
Definition join_elem (v : jsval) : string :=
  match v with JUndefined | JNull => "" | _ => js_string v end.

(** [s.toLowerCase()].  Beyond ASCII, 8-bit capitals map to 8-bit small
    letters, never to ASCII ones; every result below is only compared with
    or searched for ASCII text, which this mapping decides exactly. *)
Definition js_lower (s : string) : string :=
  string_of_list_ascii (map ascii_lower (str s)).

(** [/^-?\d+(\.\d+)?$/.test(s)]: each part is followed by a character its
    class excludes, so no backtracking is needed. *)
Definition re_js_number (s : chars) : bool :=
  let (d, rest) := span is_digit (strip_minus s) in
  match d with
  | [] => false
  | _ :: _ =>
      match rest with
      | [] => true
      | c :: frac => Ascii.eqb c "."%char && all_digits1 frac
      end
  end.

(** [s.replace(/'/g, "''")] *)
Fixpoint double_quotes (s : chars) : chars :=
  match s with
  | [] => []
  | c :: r => if Ascii.eqb c "'"%char then c :: c :: double_quotes r else c :: double_quotes r
  end.

(** [formatDefaultValue(defaultValue, dataType)]: [None] is [null].  It is
    called with the [DATA_TYPE] that [convertToMySQLType] has just lowered,
    so [dataType] is a string. *)
Definition formatDefaultValue (defaultValue : jsval) (dataType : string) : option string :=
  match defaultValue with
  | JUndefined | JNull | JObj _ => None
  | _ =>
      let lower := str (js_lower dataType) in
      let valueStr := js_string defaultValue in
      let v := str valueStr in
      if includes (str "getdate()") v || includes (str "GETDATE()") v then Some "CURRENT_TIMESTAMP"
      else if includes (str "newid()") v || includes (str "NEWID()") v then None
      else if includes (str "varchar") lower || includes (str "char") lower || includes (str "text") lower
      then Some ("'" ++ string_of_list_ascii (double_quotes v) ++ "'")
      else if includes (str "int") lower || includes (str "decimal") lower || includes (str "float") lower
      then (if re_js_number v then Some valueStr else None)
      else if String.eqb (js_lower dataType) "bit" then
        Some (if String.eqb valueStr "1" || String.eqb (js_lower valueStr) "true" then "1" else "0")
      else None
  end.

Definition convertToMySQLType (column : obj) : outcome string :=
  match obj_get column "DATA_TYPE" with
  | JUndefined => Throw "Cannot read properties of undefined (reading 'toLowerCase')"
  | JNull => Throw "Cannot read properties of null (reading 'toLowerCase')"
  | JStr s =>
      let dataType := js_lower s in
      let maxLength := obj_get column "CHARACTER_MAXIMUM_LENGTH" in
      let precision := obj_get column "NUMERIC_PRECISION" in
      let scale := obj_get column "NUMERIC_SCALE" in
      let is := String.eqb dataType in
      Ok (if is "int" || is "integer" then "INT"
          else if is "bigint" then "BIGINT"
          else if is "smallint" then "SMALLINT"
          else if is "tinyint" then "TINYINT"
          else if is "decimal" || is "numeric" then
            "DECIMAL(" ++ js_string (js_or precision (JNum 18)) ++ "," ++ js_string (js_or scale (JNum 0)) ++ ")"
          else if is "float" then "FLOAT"
          else if is "real" then "DOUBLE"
          else if is "varchar" || is "nvarchar" then "VARCHAR(" ++ js_string (js_or maxLength (JNum 255)) ++ ")"
          else if is "char" || is "nchar" then "CHAR(" ++ js_string (js_or maxLength (JNum 1)) ++ ")"
          else if is "text" || is "ntext" then "TEXT"
          else if is "datetime" || is "datetime2" then "DATETIME"
          else if is "date" then "DATE"
          else if is "time" then "TIME"
          else if is "timestamp" then "TIMESTAMP"
          else if is "bit" then "BOOLEAN"
          else "TEXT")
  | _ => Throw "column.DATA_TYPE.toLowerCase is not a function"
  end.

(** The body of [columns.forEach]: the column definition, and whether the
    column joins [primaryKeyColumns]. *)
Definition column_def (column : obj) : outcome (string * bool) :=
  match convertToMySQLType column with
  | Throw m => Throw m
  | Ok ty =>
      let colDef := "`" ++ js_string (obj_get column "COLUMN_NAME") ++ "` " ++ ty in
      let dflt :=
        if defined (obj_get column "COLUMN_DEFAULT") then
          formatDefaultValue (obj_get column "COLUMN_DEFAULT") (match obj_get column "DATA_TYPE" with
                                                                | JStr s => s | _ => "" end)
        else None in
      let hasDefault := match dflt with Some _ => true | None => false end in
      let colDef := match dflt with Some d => colDef ++ " DEFAULT " ++ d | None => colDef end in
      let isPri := jsval_eqb (obj_get column "COLUMN_KEY") (JStr "PRI") in
      let isIdentity := jsval_eqb (obj_get column "IS_IDENTITY") (JNum 1) in
      let colDef :=
        if jsval_eqb (obj_get column "IS_NULLABLE") (JStr "NO") && (hasDefault || isIdentity || isPri)
        then colDef ++ " NOT NULL" else colDef ++ " NULL DEFAULT NULL" in
      let colDef := if isIdentity then colDef ++ " AUTO_INCREMENT" else colDef in
      Ok (colDef, isPri)
  end.

(** [columnDefinitions] after the loop and the primary-key constraint. *)
Fixpoint column_defs (columns : list obj) : outcome (list string * list jsval) :=
  match columns with
  | [] => Ok ([], [])
  | c :: rest =>
      match column_def c with
      | Throw m => Throw m
      | Ok (d, isPri) =>
          match column_defs rest with
          | Throw m => Throw m
          | Ok (ds, pks) => Ok (d :: ds, if isPri then obj_get c "COLUMN_NAME" :: pks else pks)
          end
      end
  end.

Definition table_definitions (columns : list obj) : outcome (list string) :=
  match column_defs columns with
  | Throw m => Throw m
  | Ok (ds, []) => Ok ds
  | Ok (ds, pks) => Ok (app ds ["PRIMARY KEY (`" ++ join "`, `" (map join_elem pks) ++ "`)"])
  end.

Definition create_table_sql (tbl : string) (defs : list string) : string :=
  nl ++ "                CREATE TABLE " ++ bq tbl ++ " (" ++ nl
  ++ "                    " ++ join ("," ++ nl ++ "                    ") defs ++ nl
  ++ "                )" ++ nl ++ "            ".

(** An entry of [schema.indexes]: its properties, and [index.COLUMNS || []]
    as the list of column objects. *)
Record index_def := mkIndex { index_fields : obj; index_columns : list obj }.

Definition create_index_sql (tbl : string) (ix : index_def) : string :=
  let columnList :=
    join ", " (map (fun col => "`" ++ js_string (obj_get col "COLUMN_NAME") ++ "` "
                               ++ (if js_truthy (obj_get col "IS_DESCENDING") then "DESC" else "ASC"))
                   (index_columns ix)) in
  nl ++ "                    CREATE " ++ (if js_truthy (obj_get (index_fields ix) "IS_UNIQUE") then "UNIQUE" else "")
  ++ " INDEX `" ++ js_string (obj_get (index_fields ix) "INDEX_NAME") ++ "` " ++ nl
  ++ "                    ON " ++ bq tbl ++ " (" ++ columnList ++ ")" ++ nl ++ "                ".

(** The fixed statements of [addHospitalitySpecificIndexes] and
    [addRetailSpecificIndexes].  For any other table name the lookup gives
    [undefined] or an inherited property ([toString], ...) that is not
    iterable and whose error is caught: no statement either way. *)
Definition hospitalityIndexes (tbl : string) : list string :=
  if String.eqb tbl "MenuItem" then
    ["ALTER TABLE `MenuItem` ADD PRIMARY KEY (ItemCode)";
     "ALTER TABLE `MenuItem` ADD INDEX idx_category (Category)";
     "ALTER TABLE `MenuItem` ADD FULLTEXT INDEX idx_desc_ngram (Description1, Description2) WITH PARSER ngram"]
  else if String.eqb tbl "SalesDetail" then
    ["ALTER TABLE `SalesDetail` ADD INDEX idx_item_orderno (ItemCode, OrderNo)";
     "ALTER TABLE `SalesDetail` ADD INDEX idx_orderno (OrderNo)"]
  else if String.eqb tbl "Sales" then
    ["ALTER TABLE `Sales` ADD PRIMARY KEY (OrderNo)";
     "ALTER TABLE `Sales` ADD INDEX idx_orderdate (OrderDate)";
     "ALTER TABLE `Sales` ADD INDEX idx_orderdate_orderno (OrderDate, OrderNo)"]
  else [].

Definition retailIndexes (tbl : string) : list string :=
  if String.eqb tbl "StockItems" then
    ["ALTER TABLE `StockItems` ADD PRIMARY KEY (StockId)";
     "ALTER TABLE `StockItems` ADD INDEX idx_category (Category)";
     "ALTER TABLE `StockItems` ADD INDEX idx_category_stockid (Category, StockId)";
     "ALTER TABLE `StockItems` ADD FULLTEXT INDEX idx_desc_ngram (Description, Description1, Description2, Description3) WITH PARSER ngram"]
  else if String.eqb tbl "SalesDetail" then
    ["ALTER TABLE `SalesDetail` ADD INDEX idx_invoiceno_stockid (InvoiceNo, StockId)";
     "ALTER TABLE `SalesDetail` ADD INDEX idx_stockid (StockId)";
     "ALTER TABLE `SalesDetail` ADD INDEX idx_invoiceno (InvoiceNo)"]
  else if String.eqb tbl "Sales" then
    ["ALTER TABLE `Sales` ADD PRIMARY KEY (InvoiceNo)";
     "ALTER TABLE `Sales` ADD INDEX idx_transactiondate (TransactionDate)";
     "ALTER TABLE `Sales` ADD INDEX idx_transactiondate_invoiceno (TransactionDate, InvoiceNo)"]
  else [].

Section SchemaHandlers.
Context {D : Type} (exec : D -> stmt -> D * db_result).

(** [dbManager.executeQuery(database, query)] with no parameters. *)
Definition run_sql (db : D) (q : string) : D * db_result := exec db (mkStmt q []).

(** The [for (const indexQuery of ...)] loop: every failure is caught
    inside the loop. *)
Fixpoint run_each (db : D) (qs : list string) : D :=
  match qs with
  | [] => db
  | q :: rest => run_each (fst (run_sql db q)) rest
  end.

Definition addHospitalitySpecificIndexes (db : D) (tbl : string) : D := run_each db (hospitalityIndexes tbl).
Definition addRetailSpecificIndexes (db : D) (tbl : string) : D := run_each db (retailIndexes tbl).

(** [createTableIndexes]: an index without columns is skipped; the first
    failing statement ends the loop (the [catch] is outside it). *)
Fixpoint createTableIndexes (db : D) (tbl : string) (indexes : list index_def) : D :=
  match indexes with
  | [] => db
  | ix :: rest =>
      match index_columns ix with
      | [] => createTableIndexes db tbl rest
      | _ :: _ =>
          let (db', r) := run_sql db (create_index_sql tbl ix) in
          match r with
          | DbOk _ => createTableIndexes db' tbl rest
          | DbFail _ _ => db'
          end
      end
  end.

(** [createTableWithSchema(database, tableName, schema, databaseType)] with
    [columns] the array [schema.columns || schema] and [indexes] the array
    [schema.indexes || []]. *)
Definition createTableWithSchema (db : D) (tbl : string) (columns : list obj)
    (indexes : list index_def) (databaseType : jsval) : D * outcome unit :=
  match table_definitions columns with
  | Throw m => (db, Throw m)
  | Ok defs =>
      let (db1, r) := run_sql db (create_table_sql tbl defs) in
      match r with
      | DbFail _ m => (db1, Throw m)
      | DbOk _ =>
          let db2 := match indexes with [] => db1 | _ :: _ => createTableIndexes db1 tbl indexes end in
          let db3 :=
            if jsval_eqb databaseType (JStr "hospitality") then addHospitalitySpecificIndexes db2 tbl
            else if jsval_eqb databaseType (JStr "retail") then addRetailSpecificIndexes db2 tbl
            else db2 in
          (db3, Ok tt)
      end
  end.

(** Running statements in order until the first one fails, as a loop
    with its [catch] outside does. *)
Fixpoint run_until_fail (db : D) (qs : list string) : D :=
  match qs with
  | [] => db
  | q :: rest =>
      let (db', r) := run_sql db q in
      match r with DbOk _ => run_until_fail db' rest | DbFail _ _ => db' end
  end.

End SchemaHandlers.

(** How MySQL reads the inside of a single-quoted string literal in its
    default SQL mode: a doubled quote stands for one quote, a backslash
    escapes the next character, and a lone quote ends the literal.  The
    result is the value and the text after the closing quote. *)
Definition mysql_escape (c : ascii) : chars :=
  let n := nat_of_ascii c in
  if Nat.eqb n 48 then [ascii_of_nat 0]
  else if Nat.eqb n 98 then [ascii_of_nat 8]
  else if Nat.eqb n 110 then [ascii_of_nat 10]
  else if Nat.eqb n 114 then [ascii_of_nat 13]
  else if Nat.eqb n 116 then [ascii_of_nat 9]
  else if Nat.eqb n 90 then [ascii_of_nat 26]
  else if Nat.eqb n 37 || Nat.eqb n 95 then ["\"%char; c]
  else [c].

Fixpoint mysql_string_body (s : chars) : option (chars * chars) :=
  match s with
  | [] => None
  | c :: r =>
      if Ascii.eqb c "'"%char then
        match r with
        | d :: r' =>
            if Ascii.eqb d "'"%char then
              match mysql_string_body r' with Some (v, t) => Some (c :: v, t) | None => None end
            else Some ([], r)
        | [] => Some ([], [])
        end
      else if Ascii.eqb c "\"%char then
        match r with
        | d :: r' =>
            match mysql_string_body r' with Some (v, t) => Some ((mysql_escape d ++ v)%list, t) | None => None end
        | [] => None
        end
      else
        match mysql_string_body r with Some (v, t) => Some (c :: v, t) | None => None end
  end.

(** ** CSV files: upload queue, header line, row batches (syncService.js) *)

(** [fileName.match(/_batch_(\d+)_of_(\d+)_/)]: the leftmost match.  Each
    [\d+] is followed by ['_'], which it excludes, so the greedy match is
    the only one at a given start. *)
Definition batch_pattern : matcher :=
  m_all [m_lit false "_batch_"; m_plus true is_digit; m_lit false "_of_"; m_plus true is_digit;
         m_lit false "_"].

Fixpoint search_first (m : matcher) (s : chars) : option (list chars) :=
  match m s with
  | Some (caps, _) => Some caps
  | None => match s with [] => None | _ :: r => search_first m r end
  end.

(** [parseInt(batchMatch[2])] when the name matches, read as the exact
    value of the numeral.  [parseInt] gives the same number for numerals up
    to 2^53 only: beyond, it rounds to the nearest double (and to
    [Infinity] past the largest one), which this reading does not follow;
    statements about it are restricted to totals of at most 2^53. *)
Definition batch_total (fileName : string) : option Z :=
  match search_first batch_pattern (str fileName) with
  | Some [_; m] => Some (digits_value m)
  | _ => None
  end.

(** An entry of [csvUploadQueue].  [totalFiles] is [files.length]; the
    [totalRows] sum is not used by anything modelled here. *)
Record csv_upload := mkCsvUpload
  { cu_appId : option string; cu_tableName : string; cu_files : list string; cu_expectedFiles : Z }.

(** [`${appId}_${tableName}`] *)
Definition upload_key (appId : option string) (tableName : string) : string :=
  match appId with Some a => a | None => "undefined" end ++ "_" ++ tableName.

(** [handleCSVBulkUpload]: [written] is whether creating the directory,
    writing and stating the file succeeded; the queue is only touched
    afterwards.  The result is the queue and [success]. *)
Definition handleCSVBulkUpload (q : list (string * csv_upload)) (appId : option string)
    (tableName fileName : string) (written : bool) : list (string * csv_upload) * bool :=
  if negb written then (q, false) else
  let key := upload_key appId tableName in
  let info := match smap_get q key with
              | Some i => i
              | None => mkCsvUpload appId tableName [] 0
              end in
  let expected := match batch_total fileName with Some m => m | None => cu_expectedFiles info end in
  (smap_set q key (mkCsvUpload (cu_appId info) (cu_tableName info) (cu_files info ++ [fileName])%list expected),
   true).

(** [getCSVUploadInfo]: the entry and [allFilesReceived]. *)
Definition getCSVUploadInfo (q : list (string * csv_upload)) (appId : option string) (tableName : string)
  : option (csv_upload * bool) :=
  match smap_get q (upload_key appId tableName) with
  | None => None
  | Some i =>
      Some (i, (0 <? cu_expectedFiles i)%Z && (Z.of_nat (length (cu_files i)) >=? cu_expectedFiles i)%Z)
  end.

(** [content.split(/\r?\n/)[0]]: up to the first line feed, without a
    carriage return just before it. *)
Definition first_line (content : chars) : chars :=
  let (l, _) := span (fun c => negb (Ascii.eqb c (ascii_of_nat 10))) content in
  match rev l with
  | c :: r => if Ascii.eqb c (ascii_of_nat 13) then rev r else l
  | [] => l
  end.

(** [s.split(',')] *)
Fixpoint split_char (sep : ascii) (s : chars) : list chars :=
  match s with
  | [] => [[]]
  | c :: r =>
      if Ascii.eqb c sep then [] :: split_char sep r
      else match split_char sep r with
           | p :: ps => (c :: p) :: ps
           | [] => [[c]]
           end
  end.

Definition is_quote (c : ascii) : bool :=
  Ascii.eqb c "'"%char || Ascii.eqb c (ascii_of_nat 34).

(** [firstLines[0].split(',')], each header with every single or double
    quote character removed ([replace] with a global class), then trimmed. *)
Definition csv_headers (content : chars) : list chars :=
  map (fun h => js_trim (filter (fun c => negb (is_quote c)) h)) (split_char ","%char (first_line content)).

(** Successive [handleCSVBulkUpload] calls for one app and table, each of
    whose file writes succeeds. *)
Definition uploads (q : list (string * csv_upload)) (appId : option string) (tableName : string)
    (fs : list string) : list (string * csv_upload) :=
  fold_left (fun q f => fst (handleCSVBulkUpload q appId tableName f true)) fs q.

(** The total announced by the last batch-named file of [fs], [e] when no
    file is batch-named. *)
Definition last_total (e : Z) (fs : list string) : Z :=
  fold_left (fun e f => match batch_total f with Some m => m | None => e end) fs e.


(** * Properties *)

(** ** The row-op dispatcher on concrete payloads *)

Module DispatchFacts.

(** C2: the UPDATE of a retail PaymentReceived row whose payload carries
    [old_Id = 0] next to [Id = 7].  The presence check accepts [old_Id]
    (it is present), but the WHERE value is [d.old_Id || d.Id], and [0] is
    falsy: the statement looks the row up by the new [Id = 7], not by the
    old key [0]. *)
Theorem update_where_old_key_falsy :
  executeAdvancedSyncOperation "PaymentReceived" "UPDATE"
    (JObj [("InvoiceNo", JStr "I1"); ("Id", JNum 7); ("old_InvoiceNo", JStr "I1"); ("old_Id", JNum 0)])
    (Some "retail")
  = Ok (mkStmt "UPDATE PaymentReceived SET `InvoiceNo` = ?, `Id` = ? WHERE `InvoiceNo` = ? AND `Id` = ?"
               [JStr "I1"; JNum 7; JStr "I1"; JNum 7]).
Proof. vm_compute. reflexivity. Qed.

End DispatchFacts.

(** ** DDL translation *)

Module DdlFacts.

Lemma alter_add_translation :
  convertSqlServerDDLToMySQL "ALTER TABLE [dbo].[Sales] Add [Note] [NVARCHAR](50) NULL" "Sales" "DDL_ALTER_TABLE"
  = Some "ALTER TABLE [Sales] ADD COLUMN `Note` VARCHAR(50) CHARACTER SET utf8mb4 COLLATE utf8mb4_0900_ai_ci NULL".
Proof. vm_compute. reflexivity. Qed.

(** C5: the ALTER TABLE ... Add command of the example, and what the
    [sync_ddl_operation] handler does with it for a known store.  The ADD-column
    rewrite turns the column part into MySQL syntax, but the table name
    keeps its SQL Server brackets ([dbo].  is stripped, [[Sales]] is not
    rewritten on this path), so the statement sent to MySQL is not the
    backtick-quoted one. *)
Theorem ddl_alter_add_keeps_brackets (e : env) (s : session) (storeId appId : option string) (db : string)
  (Hdb : getDatabaseByStoreAndApp (env_db e) storeId appId = Some db) :
  convertSqlServerDDLToMySQL "ALTER TABLE [dbo].[Sales] Add [Note] [NVARCHAR](50) NULL" "Sales" "DDL_ALTER_TABLE"
  = Some "ALTER TABLE [Sales] ADD COLUMN `Note` VARCHAR(50) CHARACTER SET utf8mb4 COLLATE utf8mb4_0900_ai_ci NULL"
  /\ snd (handle e s (EvSyncDdl storeId appId "Sales" "DDL_ALTER_TABLE"
                        "ALTER TABLE [dbo].[Sales] Add [Note] [NVARCHAR](50) NULL"))
     = [emit (if env_exec e db (mkStmt "ALTER TABLE [Sales] ADD COLUMN `Note` VARCHAR(50) CHARACTER SET utf8mb4 COLLATE utf8mb4_0900_ai_ci NULL" [])
              then "ddl_sync_success" else "ddl_sync_error") None].
Proof.
  split; [exact alter_add_translation |].
  unfold handle. rewrite Hdb, alter_add_translation.
  destruct (env_exec e db _); reflexivity.
Qed.

(** With a database that, like MySQL, does not accept bracket quoting, the
    example command ends in [ddl_sync_error]. *)
Lemma ddl_alter_add_keeps_brackets_witness :
  getDatabaseByStoreAndApp (env_db example_env) (Some "239") (Some "A") = Some "A"
  /\ snd (handle example_env new_session
            (EvSyncDdl (Some "239") (Some "A") "Sales" "DDL_ALTER_TABLE"
               "ALTER TABLE [dbo].[Sales] Add [Note] [NVARCHAR](50) NULL"))
     = [emit "ddl_sync_error" None].
Proof.
  split; [reflexivity |].
  destruct (ddl_alter_add_keeps_brackets example_env new_session (Some "239") (Some "A") "A" eq_refl)
    as [_ H].
  rewrite H. vm_compute. reflexivity.
Defined.

End DdlFacts.

(** ** License validation and the identify gate *)

Module LicenseFacts.

(** [Math.ceil(a / b)] as computed by [ceil_div]: the least multiple of
    [b] not below [a]. *)
Lemma ceil_div_spec (a b : Z) : (0 < b)%Z ->
  ((ceil_div a b - 1) * b < a <= ceil_div a b * b)%Z.
Proof.
  intros Hb. unfold ceil_div.
  pose proof (Z.div_mod (- a) b ltac:(lia)) as Hd.
  pose proof (Z.mod_pos_bound (- a) b Hb) as Hm.
  set (q := (- a / b)%Z) in *. set (m := (- a mod b)%Z) in *.
  nia.
Qed.

(** C6: the result of [validateAdvancedReportLicense] on a reachable
    stores table.  No matching row: invalid, expired, "Store not found or
    invalid AppId".  Otherwise, for the first matching row: expired exactly
    when the expiry is at or before now, valid exactly when not expired,
    and a snapshot of the row whose [daysRemaining] is 0 when expired and
    the ceiling of the remaining time in days when valid. *)
Theorem validate_license_spec (stores : list store_row) (storeId appId : string) (now : Z) :
  let v := validateAdvancedReportLicense (DbUp stores) storeId appId now in
  match filter (row_matches storeId appId) stores with
  | [] => isValid v = false /\ isExpired v = true
          /\ error v = Some "Store not found or invalid AppId" /\ storeInfo v = None
  | r :: _ =>
      isExpired v = (AdvancedReportLicenseExpire r <=? now)%Z
      /\ isValid v = negb (isExpired v)
      /\ exists si, storeInfo v = Some si
         /\ si_storeId si = StoreId r /\ si_appId si = AdvancedReportAppId r
         /\ si_storeName si = StoreName r
         /\ si_expireDate si = AdvancedReportLicenseExpire r
         /\ ((isExpired v = true /\ daysRemaining si = 0%Z)
             \/ (isValid v = true
                 /\ ((daysRemaining si - 1) * day_ms < AdvancedReportLicenseExpire r - now
                     <= daysRemaining si * day_ms)%Z))
  end.
Proof.
  cbv zeta. unfold validateAdvancedReportLicense.
  destruct (filter (row_matches storeId appId) stores) as [| r rest].
  - repeat split.
  - cbn [isExpired isValid storeInfo].
    split; [reflexivity |]. split; [reflexivity |].
    eexists; split; [reflexivity |].
    cbn. repeat split.
    destruct (Z.leb_spec (AdvancedReportLicenseExpire r) now) as [Hle | Hlt].
    + left. split; reflexivity.
    + right. split; [reflexivity |].
      apply ceil_div_spec. unfold day_ms. lia.
Qed.

(** The expired or unknown license: [license_expired] with code 410, then
    the close one second later. *)
Lemma license_expired_then_grace (e : env) (s : session) (storeId appId : string)
  (Hid : storeId <> "" /\ appId <> "")
  (Hbad : let v := validateAdvancedReportLicense (env_db e) storeId appId (env_now e) in
          isValid v = false \/ isExpired v = true) :
  handle e s (EvIdentify (Some storeId) (Some appId) (Some "advanced_online_report"))
  = (s, [Emit (mkOut "license_expired" (Some false) (Some 410%Z)); DisconnectAfter 1000]).
Proof.
  destruct Hid as [Hs Ha].
  unfold handle, handle_identify.
  replace (is_advanced (Some "advanced_online_report")) with true by reflexivity.
  cbn [opt_truthy key_text_or].
  apply String.eqb_neq in Hs. apply String.eqb_neq in Ha. rewrite Hs, Ha. cbn [negb orb].
  cbv zeta in Hbad.
  destruct Hbad as [H | H]; rewrite H; [reflexivity |].
  rewrite orb_true_r. reflexivity.
Qed.

(** C7: an [identify] for the advanced report without a (truthy) storeId
    or appId gets [license_error] with code 400 and is disconnected at
    once ([socket.disconnect(true)] right after the emit), with no grace
    period, unlike the [license_expired] path above. *)
Theorem identify_missing_credentials_immediate_close (e : env) (s : session) (storeId appId : option string)
  (Hmissing : opt_truthy storeId = false \/ opt_truthy appId = false) :
  handle e s (EvIdentify storeId appId (Some "advanced_online_report"))
  = (s, [Emit (mkOut "license_error" (Some false) (Some 400%Z)); DisconnectAfter 0]).
Proof.
  unfold handle, handle_identify.
  replace (is_advanced (Some "advanced_online_report")) with true by reflexivity.
  destruct Hmissing as [H | H]; rewrite H; [reflexivity |].
  rewrite orb_true_r. reflexivity.
Qed.

Lemma identify_missing_credentials_immediate_close_witness :
  (opt_truthy None = false \/ opt_truthy (Some "A") = false)
  /\ handle example_env new_session (EvIdentify None (Some "A") (Some "advanced_online_report"))
     = (new_session, [Emit (mkOut "license_error" (Some false) (Some 400%Z)); DisconnectAfter 0]).
Proof.
  split; [left; reflexivity |].
  apply (identify_missing_credentials_immediate_close example_env new_session None (Some "A")).
  left; reflexivity.
Defined.

End LicenseFacts.

(** ** CSV import coercion *)

Module CsvCoercionFacts.

Lemma fold_branches_from (bs : list case_branch) (v : chars) (r : sql_result) :
  fold_right (fun b acc => match eval_branch b v with Some r => Some r | None => acc end) None bs = Some r ->
  exists b, In b bs /\ eval_branch b v = Some r.
Proof.
  induction bs as [| b bs IH]; cbn; [discriminate |].
  destruct (eval_branch b v) as [r' |] eqn:Hb.
  - intros [= <-]. exists b. split; [left |]; auto.
  - intros H. destruct (IH H) as [b' [Hin Hev]]. exists b'. split; [right |]; auto.
Qed.

Lemma protected_branch_not_numeric (b : case_branch) (v : chars) (r : sql_result) :
  In b (case_branches true) -> eval_branch b v = Some r ->
  match r with RInt _ | RDecimal _ => False | _ => True end.
Proof.
  intros Hin Hev. cbn in Hin.
  destruct Hin as [<- | [<- | [<- | [<- | [<- | []]]]]]; cbn in Hev.
  - destruct (sql_trim v); inversion Hev; exact I.
  - destruct (_ || _ || _); inversion Hev; exact I.
  - destruct (re_datetime "T"%char v); inversion Hev; exact I.
  - destruct (re_datetime " "%char v); inversion Hev; exact I.
  - destruct (re_date_only v); inversion Hev; exact I.
Qed.

(** C9: every SET expression [buildColumnMappings] generates carries the
    branch list fixed by its column's protection; protected columns
    ([StockId], [ItemCode]) lose the boolean-word branch and both numeric
    casts and keep the others, unprotected columns keep all eight; on a
    protected column the CASE never yields an integer or decimal, so ["007"]
    stays the text ["007"], where an unprotected column casts it to [7]. *)
Theorem protected_columns_skip_numeric (headers cols : list string) :
  (forall st, In st (setStatements (buildColumnMappings headers cols)) ->
     set_branches st = case_branches (is_protected_column (set_column st)))
  /\ is_protected_column "StockId" = true /\ is_protected_column "ItemCode" = true
  /\ case_branches true = [BNullOrBlank; BSentinelDate; BIsoDatetime; BSpaceDatetime; BDateOnly]
  /\ case_branches false = [BNullOrBlank; BBooleanWord; BSentinelDate; BIsoDatetime; BSpaceDatetime;
                            BDateOnly; BInteger; BDecimal]
  /\ (forall v, match eval_case (case_branches true) v with RInt _ | RDecimal _ => False | _ => True end)
  /\ eval_case (case_branches true) (Some (str "007")) = RText (str "007")
  /\ eval_case (case_branches false) (Some (str "007")) = RInt 7.
Proof.
  split; [| split; [reflexivity | split; [reflexivity | split; [reflexivity | split; [reflexivity |]]]]].
  - intros st Hin. unfold buildColumnMappings in Hin. cbn [setStatements] in Hin.
    apply in_flat_map in Hin. destruct Hin as [[tc idx] [_ Hin]].
    destruct (idx <? length headers)%nat; [| destruct Hin].
    destruct Hin as [<- | []]. reflexivity.
  - split; [| split; vm_compute; reflexivity].
    intros [v |]; [| exact I]. unfold eval_case.
    destruct (fold_right _ None (case_branches true)) as [r |] eqn:Hf; [| exact I].
    destruct (fold_branches_from _ _ _ Hf) as [b [Hin Hev]].
    exact (protected_branch_not_numeric b v r Hin Hev).
Qed.

Lemma protected_columns_skip_numeric_witness :
  let m := buildColumnMappings ["Stock Id"; "Qty"] ["StockId"; "Qty"] in
  In (mkSet "StockId" "@Stock_Id" (case_branches true)) (setStatements m)
  /\ set_branches (mkSet "StockId" "@Stock_Id" (case_branches true))
     = case_branches (is_protected_column "StockId").
Proof.
  cbv zeta. split; [left; reflexivity |].
  destruct (protected_columns_skip_numeric ["Stock Id"; "Qty"] ["StockId"; "Qty"]) as [H _].
  apply (H (mkSet "StockId" "@Stock_Id" (case_branches true))). left; reflexivity.
Defined.

End CsvCoercionFacts.

(** ** INSERT as an upsert *)

Module UpsertFacts.


Lemma obj_get_set (o : obj) (k c : string) (v : jsval) :
  obj_get (obj_set o k v) c = if String.eqb c k then v else obj_get o c.
Proof.
  induction o as [| [k' v'] r IH]; cbn.
  - reflexivity.
  - destruct (String.eqb k k') eqn:Hkk'; cbn.
    + apply String.eqb_eq in Hkk'. subst k'. destruct (String.eqb c k); reflexivity.
    + rewrite IH. destruct (String.eqb c k) eqn:Hck; [| reflexivity].
      apply String.eqb_eq in Hck. subst c. rewrite Hkk'. reflexivity.
Qed.

















End UpsertFacts.

(** ** WHERE columns of UPDATE and DELETE *)

Module WhereFacts.

Lemma old_or_new_fields (d : obj) (fs : list string) (ctx : string) wf wv :
  old_or_new d fs ctx = Ok (wf, wv) -> wf = fs.
Proof. unfold old_or_new. destruct (check_old_or_new d fs ctx); congruence. Qed.

Lemma present_fields (d : obj) (fs : list string) (ctx : string) wf wv :
  present d fs ctx = Ok (wf, wv) -> wf = fs.
Proof. unfold present. destruct (check_present d fs ctx); congruence. Qed.

Lemma check_old_or_new_missing (d : obj) (fs : list string) (ctx c : string) :
  In c fs -> obj_has d c = false -> obj_has d ("old_" ++ c) = false ->
  exists m, check_old_or_new d fs ctx = Throw m.
Proof.
  induction fs as [| f r IH]; [intros [] |].
  intros [<- | Hin] H1 H2; cbn [check_old_or_new].
  - rewrite H1, H2. eexists; reflexivity.
  - destruct (negb (obj_has d f) && _); [eexists; reflexivity |].
    apply IH; assumption.
Qed.

Lemma check_present_missing (d : obj) (fs : list string) (ctx c : string) :
  In c fs -> obj_has d c = false -> exists m, check_present d fs ctx = Throw m.
Proof.
  induction fs as [| f r IH]; [intros [] |].
  intros [<- | Hin] H1; cbn.
  - rewrite H1. eexists; reflexivity.
  - destruct (negb (obj_has d f)); [eexists; reflexivity |]. apply IH; assumption.
Qed.

Lemma old_or_new_missing (d : obj) (fs : list string) (ctx c : string) :
  In c fs -> obj_has d c = false -> obj_has d ("old_" ++ c) = false ->
  exists m, old_or_new d fs ctx = Throw m.
Proof.
  intros Hin H1 H2. destruct (check_old_or_new_missing d fs ctx c Hin H1 H2) as [m Hm].
  exists m. unfold old_or_new. rewrite Hm. reflexivity.
Qed.

Lemma present_missing (d : obj) (fs : list string) (ctx c : string) :
  In c fs -> obj_has d c = false -> exists m, present d fs ctx = Throw m.
Proof.
  intros Hin H1. destruct (check_present_missing d fs ctx c Hin H1) as [m Hm].
  exists m. unfold present. rewrite Hm. reflexivity.
Qed.

Lemma obj_get_absent (d : obj) (k : string) : obj_has d k = false -> obj_get d k = JUndefined.
Proof.
  induction d as [| [k' v] r IH]; cbn; [reflexivity |].
  rewrite String.eqb_sym. destruct (String.eqb k k'); [discriminate | exact IH].
Qed.

(** Splits on the table names the dispatcher and the policy mention, then
    on the business type, and rewrites the failed comparisons. *)
Ltac split_names x names :=
  lazymatch names with
  | nil => idtac
  | cons ?n ?rest =>
      destruct (String.eqb_spec x n) as [-> | ?]; [| split_names x rest]
  end.

Ltac clear_names x :=
  repeat match goal with
  | H : x <> ?n |- _ =>
      let E := fresh in
      assert (E : String.eqb x n = false) by (apply String.eqb_neq; exact H);
      rewrite ?E in *; clear H E
  end.

Ltac table_cases tbl :=
  split_names tbl ["Sales"; "SalesDetail"; "StockItems"; "MenuItem"; "SubMenuLinkDetail";
                   "PaymentReceived"; "Payment"]%list;
  clear_names tbl.

Ltac bt_cases bt :=
  let b := fresh "b" in
  destruct bt as [b |]; cbn [bt_is] in *;
  [ split_names b ["retail"; "hospitality"]%list; clear_names b | ].

Lemma update_where_policy (tbl : string) (bt : option string) (d : obj) cols wf wv :
  spec_pk_policy tbl bt = Some cols -> update_where tbl bt d = Ok (wf, wv) -> wf = cols.
Proof.
  unfold spec_pk_policy, update_where.
  table_cases tbl; bt_cases bt; cbn; intros Hp Hw; try discriminate Hp; injection Hp as <-;
    try (eapply old_or_new_fields; exact Hw).
  all: destruct (_ || _); congruence.
Qed.

Lemma delete_where_policy (tbl : string) (bt : option string) (d : obj) cols wf wv :
  tbl <> "SubMenuLinkDetail" ->
  spec_pk_policy tbl bt = Some cols -> delete_where tbl bt d = Ok (wf, wv) -> wf = cols.
Proof.
  unfold spec_pk_policy, delete_where. intros Hsm.
  table_cases tbl; try congruence; bt_cases bt; cbn; intros Hp Hw; try discriminate Hp; injection Hp as <-;
    try (eapply present_fields; exact Hw).
  all: destruct (obj_has d "id"); congruence.
Qed.

Lemma update_where_missing (tbl : string) (bt : option string) (d : obj) cols c :
  spec_pk_policy tbl bt = Some cols -> In c cols -> obj_has d c = false -> obj_has d ("old_" ++ c) = false ->
  exists m, update_where tbl bt d = Throw m.
Proof.
  unfold spec_pk_policy, update_where.
  table_cases tbl; bt_cases bt; cbn; intros Hp Hin H1 H2; try discriminate Hp; injection Hp as <-;
    try (eapply old_or_new_missing; eassumption).
  all: destruct Hin as [<- | []];
    rewrite (obj_get_absent d "id" H1), (obj_get_absent d "old_id" H2); eexists; reflexivity.
Qed.

Lemma delete_where_missing (tbl : string) (bt : option string) (d : obj) cols c :
  tbl <> "SubMenuLinkDetail" ->
  spec_pk_policy tbl bt = Some cols -> In c cols -> obj_has d c = false ->
  exists m, delete_where tbl bt d = Throw m.
Proof.
  unfold spec_pk_policy, delete_where. intros Hsm.
  table_cases tbl; try congruence; bt_cases bt; cbn; intros Hp Hin H1; try discriminate Hp; injection Hp as <-;
    try (eapply present_missing; eassumption).
  all: destruct Hin as [<- | []]; rewrite H1; eexists; reflexivity.
Qed.

Lemma string_app_assoc (a b c : string) : ((a ++ b) ++ c)%string = (a ++ (b ++ c))%string.
Proof. induction a as [| x a IH]; cbn; [reflexivity | now rewrite IH]. Qed.

Lemma update_dispatch (tbl : string) (d : obj) (bt : option string) :
  executeAdvancedSyncOperation tbl "UPDATE" (JObj d) bt = update_stmt tbl bt d.
Proof. reflexivity. Qed.

Lemma delete_dispatch (tbl : string) (d : obj) (bt : option string) :
  executeAdvancedSyncOperation tbl "DELETE" (JObj d) bt = delete_stmt tbl bt d.
Proof. reflexivity. Qed.

Lemma update_stmt_shape (tbl : string) (bt : option string) (d : obj) st :
  update_stmt tbl bt d = Ok st ->
  exists wf wv pre, update_where tbl bt d = Ok (wf, wv) /\ sql st = (pre ++ " WHERE " ++ eq_placeholders wf " AND ")%string.
Proof.
  unfold update_stmt. destruct (update_where tbl bt d) as [[wf wv] | m]; [| discriminate].
  destruct (filter _ _) as [| k ks]; [discriminate |].
  destruct wf as [| w ws]; [discriminate |].
  intros [= <-]. exists (w :: ws), wv.
  exists ("UPDATE " ++ tbl ++ " SET " ++ eq_placeholders (k :: ks) ", ")%string.
  split; [reflexivity |]. cbn [sql].
  rewrite !string_app_assoc. reflexivity.
Qed.

Lemma delete_stmt_shape (tbl : string) (bt : option string) (d : obj) st :
  delete_stmt tbl bt d = Ok st ->
  exists wf wv, delete_where tbl bt d = Ok (wf, wv)
                /\ sql st = ("DELETE FROM " ++ tbl ++ " WHERE " ++ eq_placeholders wf " AND ")%string.
Proof.
  unfold delete_stmt. destruct (delete_where tbl bt d) as [[wf wv] | m]; [| discriminate].
  destruct wf as [| w ws]; [discriminate |].
  intros [= <-]. exists (w :: ws), wv. split; reflexivity.
Qed.

(** On the dispatcher path of [executeAdvancedSyncOperation], for a (table, businessType) pair the
    policy table lists, an UPDATE statement's WHERE is exactly the listed
    columns, and so is a DELETE statement's except on SubMenuLinkDetail
    (whose DELETE falls back to [id]); a payload lacking a listed column in
    both forms is rejected. *)
Theorem advanced_where_follows_policy (tbl : string) (bt : option string) (d : obj) (cols : list string)
  (Hpol : spec_pk_policy tbl bt = Some cols) :
  (forall st, executeAdvancedSyncOperation tbl "UPDATE" (JObj d) bt = Ok st ->
     exists pre, sql st = (pre ++ " WHERE " ++ eq_placeholders cols " AND ")%string)
  /\ (tbl <> "SubMenuLinkDetail" ->
      forall st, executeAdvancedSyncOperation tbl "DELETE" (JObj d) bt = Ok st ->
      sql st = ("DELETE FROM " ++ tbl ++ " WHERE " ++ eq_placeholders cols " AND ")%string)
  /\ (forall c, In c cols -> obj_has d c = false -> obj_has d ("old_" ++ c) = false ->
      (exists m, executeAdvancedSyncOperation tbl "UPDATE" (JObj d) bt = Throw m)
      /\ (tbl <> "SubMenuLinkDetail" ->
          exists m, executeAdvancedSyncOperation tbl "DELETE" (JObj d) bt = Throw m)).
Proof.
  split; [| split].
  - intros st Hst. rewrite update_dispatch in Hst.
    destruct (update_stmt_shape _ _ _ _ Hst) as [wf [wv [pre [Hw Hs]]]].
    rewrite (update_where_policy tbl bt d cols wf wv Hpol Hw) in Hs. eauto.
  - intros Hsm st Hst. rewrite delete_dispatch in Hst.
    destruct (delete_stmt_shape _ _ _ _ Hst) as [wf [wv [Hw Hs]]].
    rewrite (delete_where_policy tbl bt d cols wf wv Hsm Hpol Hw) in Hs. exact Hs.
  - intros c Hin H1 H2. split.
    + rewrite update_dispatch. unfold update_stmt.
      destruct (update_where_missing tbl bt d cols c Hpol Hin H1 H2) as [m Hm].
      rewrite Hm. eauto.
    + intros Hsm. rewrite delete_dispatch. unfold delete_stmt.
      destruct (delete_where_missing tbl bt d cols c Hsm Hpol Hin H1) as [m Hm].
      rewrite Hm. eauto.
Qed.

Lemma advanced_where_follows_policy_witness :
  spec_pk_policy "SalesDetail" (Some "retail") = Some ["InvoiceNo"; "StockId"]
  /\ exists pre,
     sql (mkStmt "UPDATE SalesDetail SET `Qty` = ? WHERE `InvoiceNo` = ? AND `StockId` = ?" [])
     = (pre ++ " WHERE " ++ eq_placeholders ["InvoiceNo"; "StockId"] " AND ")%string.
Proof.
  split; [reflexivity |].
  destruct (advanced_where_follows_policy "SalesDetail" (Some "retail")
              [("Qty", JNum 2); ("old_InvoiceNo", JStr "I1"); ("old_StockId", JStr "S1")]
              ["InvoiceNo"; "StockId"] eq_refl) as [Hu _].
  destruct (Hu (mkStmt "UPDATE SalesDetail SET `Qty` = ? WHERE `InvoiceNo` = ? AND `StockId` = ?"
                       [JNum 2; JStr "I1"; JStr "S1"])) as [pre Hpre]; [vm_compute; reflexivity |].
  exists pre. exact Hpre.
Defined.

(** WHERE predicates that are not the policy's columns.  The
    legacy path (sync_data without appId/storeId, and batch_sync) takes its
    WHERE fields from getWhereFields: a Sales UPDATE is matched on
    InvoiceNo and TransactionDate, and a payload with only TransactionDate
    is matched on that alone, not rejected.  On the dispatcher path a
    hospitality SubMenuLinkDetail DELETE is matched on [id], not ItemCode. *)
Lemma where_outside_policy :
  spec_pk_policy "Sales" (Some "retail") = Some ["InvoiceNo"]
  /\ legacy_where "Sales"
       (JObj [("old", JObj [("InvoiceNo", JStr "I1"); ("TransactionDate", JStr "2025-01-01")]);
              ("new", JObj [("Qty", JNum 2)])]) true
     = Ok ["InvoiceNo"; "TransactionDate"]
  /\ legacy_where "Sales"
       (JObj [("old", JObj [("TransactionDate", JStr "2025-01-01")]); ("new", JObj [("Qty", JNum 2)])]) true
     = Ok ["TransactionDate"]
  /\ spec_pk_policy "SubMenuLinkDetail" (Some "hospitality") = Some ["ItemCode"]
  /\ executeAdvancedSyncOperation "SubMenuLinkDetail" "DELETE"
       (JObj [("ItemCode", JStr "X1"); ("id", JNum 5)]) (Some "hospitality")
     = Ok (mkStmt "DELETE FROM SubMenuLinkDetail WHERE `id` = ?" [JNum 5]).
Proof. vm_compute. repeat split. Defined.

(** C3: the DELETE branch lacks the SubMenuLinkDetail case that the
    UPDATE branch has.  For a hospitality SubMenuLinkDetail row
    [{ItemCode: 'X1', id: 5}], the UPDATE matches on [ItemCode] as the
    policy says, while the DELETE falls through to the [id] fallback and
    deletes by [id]; without an [id] the DELETE is refused, though the
    payload carries [ItemCode]. *)
Lemma submenu_delete_falls_back_to_id :
  executeAdvancedSyncOperation "SubMenuLinkDetail" "UPDATE"
    (JObj [("ItemCode", JStr "X1"); ("id", JNum 5)]) (Some "hospitality")
  = Ok (mkStmt "UPDATE SubMenuLinkDetail SET `ItemCode` = ?, `id` = ? WHERE `ItemCode` = ?"
               [JStr "X1"; JNum 5; JStr "X1"])
  /\ executeAdvancedSyncOperation "SubMenuLinkDetail" "DELETE"
       (JObj [("ItemCode", JStr "X1"); ("id", JNum 5)]) (Some "hospitality")
     = Ok (mkStmt "DELETE FROM SubMenuLinkDetail WHERE `id` = ?" [JNum 5])
  /\ executeAdvancedSyncOperation "SubMenuLinkDetail" "DELETE"
       (JObj [("ItemCode", JStr "X1")]) (Some "hospitality")
     = Throw "No primary key found for DELETE operation on SubMenuLinkDetail".
Proof. vm_compute. repeat split. Qed.

End WhereFacts.

(** ** Sessions before identification *)

Module SessionGateFacts.

Lemma identify_allowed (e : env) (s : session) (storeId appId serviceType : option string) :
  forallb allowed_before_identification (snd (handle_identify e s storeId appId serviceType)) = true.
Proof.
  unfold handle_identify.
  destruct (is_advanced serviceType); [| reflexivity].
  destruct (negb (opt_truthy storeId) || negb (opt_truthy appId)); [reflexivity |].
  destruct (negb (isValid _) || isExpired _); reflexivity.
Qed.

(** On a session whose storeId or appId is not
    bound, every event other than sync_data, batch_sync,
    sync_ddl_operation, csv_bulk_upload and csv_bulk_upload_chunk gets
    only [identified], [pong], an error response or a disconnect. *)
Theorem unidentified_checked_handlers_reject (e : env) (s : session) (ev : inbound)
  (Hs : is_identified s = false) (Hev : unchecked_event ev = false) :
  forallb allowed_before_identification (snd (handle e s ev)) = true.
Proof.
  destruct ev; cbn in Hev; try discriminate Hev; unfold handle; try rewrite Hs; try reflexivity.
  - apply identify_allowed.
Qed.

Lemma unidentified_checked_handlers_reject_witness :
  is_identified new_session = false
  /\ unchecked_event (EvVerifyAndSyncTable "Sales") = false
  /\ forallb allowed_before_identification
       (snd (handle example_env new_session (EvVerifyAndSyncTable "Sales"))) = true.
Proof.
  split; [reflexivity | split; [reflexivity |]].
  apply unidentified_checked_handlers_reject; reflexivity.
Defined.

(** A connection that never identified sends sync_data
    carrying its own appId and storeId; the row is written to that store's
    database and the peer gets [sync_response] with [success: true].  The
    same holds for a DDL command through sync_ddl_operation. *)
Lemma unidentified_sync_data_processed :
  is_identified new_session = false
  /\ snd (handle example_env new_session
            (EvSyncData (Some "A") (Some "239") "Sales" "INSERT"
               (JObj [("InvoiceNo", JStr "I1"); ("Total", JNum 10)]) (Some "retail")))
     = [emit "sync_response" (Some true)]
  /\ snd (handle example_env new_session
            (EvSyncDdl (Some "239") (Some "A") "Sales" "DDL_DROP_TABLE" "DROP TABLE [dbo].[Sales]"))
     = [emit "ddl_sync_success" None].
Proof. vm_compute. repeat split. Defined.


End SessionGateFacts.

(** ** Chunked CSV upload *)

Module ChunkFacts.

Section Chunks.

Variable cs : nat -> string.

Lemma map_set_fresh (p : list nat) (i : nat) :
  ~ In i p -> map_set (map (fun j => (j, cs j)) p) i (cs i) = map (fun j => (j, cs j)) (p ++ [i]).
Proof.
  induction p as [| a p IH]; intros Hni; cbn; [reflexivity |].
  destruct (Nat.eqb_spec i a) as [-> | Hia]; [exfalso; apply Hni; left; reflexivity |].
  rewrite IH; [reflexivity |]. intros H; apply Hni; right; exact H.
Qed.

Lemma map_get_in (p : list nat) (i : nat) :
  In i p -> map_get (map (fun j => (j, cs j)) p) i = Some (cs i).
Proof.
  induction p as [| a p IH]; intros Hin; [destruct Hin |]. cbn.
  destruct (Nat.eqb_spec i a) as [-> | Hia]; [reflexivity |].
  apply IH. destruct Hin as [-> | H]; [congruence | exact H].
Qed.

Lemma write_chunks_all (dec : string -> list Byte.byte) (ch : list (nat * string)) (idx : list nat) :
  (forall i, In i idx -> map_get ch i = Some (cs i)) ->
  (forall i, In i idx -> cs i <> "") ->
  write_chunks dec ch idx = (concat (map (fun i => dec (cs i)) idx), true).
Proof.
  induction idx as [| i r IH]; intros Hget Hne; [reflexivity |]. cbn.
  rewrite (Hget i (or_introl eq_refl)).
  destruct (String.eqb_spec (cs i) "") as [Heq | _]; [exfalso; exact (Hne i (or_introl eq_refl) Heq) |].
  rewrite IH; [reflexivity | |]; intros j Hj; [apply Hget | apply Hne]; right; exact Hj.
Qed.

End Chunks.

Lemma smap_get_set_same {V : Type} (m : list (string * V)) (k : string) (v : V) :
  smap_get (smap_set m k v) k = Some v.
Proof.
  induction m as [| [k' v'] r IH]; cbn; [now rewrite String.eqb_refl |].
  destruct (String.eqb_spec k k') as [-> | Hne]; cbn; [now rewrite String.eqb_refl |].
  apply String.eqb_neq in Hne. rewrite Hne. exact IH.
Qed.

Lemma smap_set_set {V : Type} (m : list (string * V)) (k : string) (v w : V) :
  smap_set (smap_set m k v) k w = smap_set m k w.
Proof.
  induction m as [| [k' v'] r IH]; cbn; [now rewrite String.eqb_refl |].
  destruct (String.eqb_spec k k') as [-> | Hne]; cbn; [now rewrite String.eqb_refl |].
  apply String.eqb_neq in Hne. rewrite Hne, IH. reflexivity.
Qed.

Lemma smap_set_keys {V : Type} (m : list (string * V)) (k x : string) (v : V) :
  In x (map fst (smap_set m k v)) -> x = k \/ In x (map fst m).
Proof.
  induction m as [| [k' v'] r IH]; cbn; [intros [-> | []]; left; reflexivity |].
  destruct (String.eqb k k'); cbn; intros [-> | H]; auto.
  destruct (IH H); auto.
Qed.

Lemma smap_set_nodup {V : Type} (m : list (string * V)) (k : string) (v : V) :
  NoDup (map fst m) -> NoDup (map fst (smap_set m k v)).
Proof.
  induction m as [| [k' v'] r IH]; cbn; intros Hnd; [constructor; [intros [] | constructor] |].
  inversion Hnd as [| ? ? Hni Hnd']; subst.
  destruct (String.eqb_spec k k') as [-> | Hne]; cbn; constructor; auto.
  intros Hin. destruct (smap_set_keys r k k' v Hin) as [-> | H]; [congruence | exact (Hni H)].
Qed.

Lemma smap_get_absent {V : Type} (m : list (string * V)) (k : string) :
  ~ In k (map fst m) -> smap_get m k = None.
Proof.
  induction m as [| [k' v'] r IH]; cbn; intros Hni; [reflexivity |].
  destruct (String.eqb_spec k k') as [-> | Hne]; [exfalso; apply Hni; left; reflexivity |].
  apply IH. intros H; apply Hni; right; exact H.
Qed.

Lemma smap_get_delete {V : Type} (m : list (string * V)) (k : string) :
  NoDup (map fst m) -> smap_get (smap_delete m k) k = None.
Proof.
  induction m as [| [k' v'] r IH]; cbn; intros Hnd; [reflexivity |].
  inversion Hnd as [| ? ? Hni Hnd']; subst.
  destruct (String.eqb_spec k k') as [-> | Hne].
  - apply smap_get_absent. exact Hni.
  - cbn. apply String.eqb_neq in Hne. rewrite Hne. apply IH, Hnd'.
Qed.

(** The session while chunks of one upload arrive: the entry under its key
    holds the chunks received so far, in arrival order. *)
Lemma chunk_steps (e : env) (sid a stype : option string) (lic : option store_info)
  (base : list (string * upload)) (files : list (string * list Byte.byte))
  (tbl tbl' fn : string) (n : nat) (cs : nat -> string) :
  forall rest pre,
  NoDup (pre ++ rest) -> length (pre ++ rest) = n ->
  (forall i, In i (seq 0 n) -> In i (pre ++ rest)) ->
  (forall i, In i (seq 0 n) -> cs i <> "") ->
  rest <> [] ->
  run e (mkSession sid a stype lic
           (smap_set base (chunk_key a fn) (mkUpload a tbl fn n (map (fun j => (j, cs j)) pre))) files)
      (map (fun i => EvCsvUploadChunk tbl' fn i n (cs i)) rest)
  = (mkSession sid a stype lic
       (smap_delete (smap_set base (chunk_key a fn)
                       (mkUpload a tbl fn n (map (fun j => (j, cs j)) (pre ++ rest)))) (chunk_key a fn))
       (smap_set files fn (concat (map (fun i => env_decode e (cs i)) (seq 0 n)))),
     [emit "csv_bulk_upload_response" (Some true); ScheduleImport 2000 sid a tbl fn]).
Proof.
  induction rest as [| i r IH]; intros pre Hnd Hlen Hall Hne Hr; [congruence |].
  assert (Hni : ~ In i pre).
  { intros Hin. apply NoDup_remove_2 in Hnd. apply Hnd, in_or_app. left; exact Hin. }
  cbn [map run handle]. unfold handle_chunk.
  cbn [s_appId s_chunkStorage s_storeId s_serviceType s_licenseInfo s_files].
  rewrite smap_get_set_same.
  cbn [up_chunks up_appId up_tableName up_fileName up_totalChunks].
  rewrite (map_set_fresh cs pre i Hni), smap_set_set, length_map.
  destruct r as [| j r'].
  - (* the last chunk *)
    rewrite Hlen, Nat.eqb_refl.
    rewrite (write_chunks_all cs (env_decode e) _ (seq 0 n)).
    + reflexivity.
    + intros k Hk. apply map_get_in. apply Hall, Hk.
    + exact Hne.
  - (* more to come *)
    assert (Hlt : length (pre ++ [i]) <> n).
    { rewrite <- Hlen, !length_app. cbn. lia. }
    apply Nat.eqb_neq in Hlt. rewrite Hlt.
    rewrite (IH (pre ++ [i])%list); [rewrite <- app_assoc; reflexivity | | | | | congruence];
      try rewrite <- app_assoc; cbn [app]; assumption.
Qed.

(** When a chunked upload is announced by csv_bulk_upload_start
    and its chunks 0 .. n-1 then arrive in any order, each with non-empty
    content, the arrival of the last one writes the decoded chunks to the
    file in ascending index order, deletes the accumulator and schedules the
    import (after a success response); nothing else is emitted. *)
Theorem chunked_upload_reassembles (e : env) (s : session) (tbl tbl' fn : string) (n : nat)
  (cs : nat -> string) (order : list nat)
  (Hperm : Permutation order (seq 0 n)) (Hn : (0 < n)%nat)
  (Hne : forall i, (i < n)%nat -> cs i <> "")
  (Hkeys : NoDup (map fst (s_chunkStorage s))) :
  let (s', acts) := run e s (EvCsvUploadStart tbl fn n
                              :: map (fun i => EvCsvUploadChunk tbl' fn i n (cs i)) order) in
  acts = [emit "csv_bulk_upload_response" (Some true); ScheduleImport 2000 (s_storeId s) (s_appId s) tbl fn]
  /\ smap_get (s_files s') fn = Some (concat (map (fun i => env_decode e (cs i)) (seq 0 n)))
  /\ smap_get (s_chunkStorage s') (chunk_key (s_appId s) fn) = None.
Proof.
  destruct s as [sid a stype lic base files]. cbn [s_chunkStorage s_appId s_storeId] in *.
  pose proof (chunk_steps e sid a stype lic base files tbl tbl' fn n cs order []) as H.
  cbn [app map] in H.
  cbn [run handle s_storeId s_appId s_serviceType s_licenseInfo s_chunkStorage s_files].
  rewrite H; clear H.
  - cbn [app s_files s_chunkStorage]. split; [reflexivity | split].
    + apply smap_get_set_same.
    + apply smap_get_delete, smap_set_nodup, Hkeys.
  - apply (Permutation_NoDup (Permutation_sym Hperm)), seq_NoDup.
  - rewrite (Permutation_length Hperm). apply length_seq.
  - intros i Hi. apply (Permutation_in _ (Permutation_sym Hperm)), Hi.
  - intros i Hi. apply in_seq in Hi. apply Hne. lia.
  - intros ->. apply Permutation_length in Hperm. rewrite length_seq in Hperm. cbn in Hperm. lia.
Qed.

Lemma chunked_upload_reassembles_witness :
  Permutation [1; 0] (seq 0 2) /\
  (let (s', acts) := run example_env new_session
                        (EvCsvUploadStart "Sales" "sales.csv" 2
                         :: map (fun i => EvCsvUploadChunk "Sales" "sales.csv" i 2
                                            (if Nat.eqb i 0 then "QQ==" else "Qg==")) [1; 0]) in
   acts = [emit "csv_bulk_upload_response" (Some true);
           ScheduleImport 2000 (s_storeId new_session) (s_appId new_session) "Sales" "sales.csv"]
   /\ smap_get (s_files s') "sales.csv"
      = Some (concat (map (fun i => env_decode example_env (if Nat.eqb i 0 then "QQ==" else "Qg==")) (seq 0 2)))
   /\ smap_get (s_chunkStorage s') (chunk_key (s_appId new_session) "sales.csv") = None).
Proof.
  split; [exact (perm_swap 0 1 []) |].
  apply (chunked_upload_reassembles example_env new_session "Sales" "Sales" "sales.csv" 2
           (fun i => if Nat.eqb i 0 then "QQ==" else "Qg==") [1; 0]).
  - exact (perm_swap 0 1 []).
  - lia.
  - intros [| i] _; discriminate.
  - constructor.
Defined.

(** C8: the write loop's missing-chunk test [if (!chunk)] also fires on a
    chunk that arrived with empty content, since [''] is falsy: a one-chunk
    upload whose chunk is [''] fails with [Missing chunk 0], answered by a
    [csv_bulk_upload_response] with [success: false] and no import,
    although every index arrived. *)
Lemma empty_chunk_fails :
  snd (run example_env new_session
         [EvCsvUploadStart "Sales" "sales.csv" 1; EvCsvUploadChunk "Sales" "sales.csv" 0 1 ""])
  = [emit "csv_bulk_upload_response" (Some false)].
Proof. vm_compute. reflexivity. Defined.

End ChunkFacts.

Module XmlFacts.

Lemma strip_prefix_app (p r : chars) : strip_prefix p (p ++ r)%list = Some r.
Proof. induction p as [| c p IH]; cbn; [reflexivity | rewrite Ascii.eqb_refl; exact IH]. Qed.

Lemma find_sub_unfold (p s : chars) :
  find_sub p s =
  match strip_prefix p s with
  | Some after => Some ([], after)
  | None =>
      match s with
      | [] => None
      | c :: r => match find_sub p r with Some (b, a) => Some (c :: b, a) | None => None end
      end
  end.
Proof. destruct s; reflexivity. Qed.

Lemma find_sub_start (p r : chars) : find_sub p (p ++ r)%list = Some ([], r).
Proof. rewrite find_sub_unfold, strip_prefix_app. reflexivity. Qed.

Lemma lazy_body_cons (op cl : chars) (c : ascii) (r : chars) :
  lazy_body op cl (c :: r) =
  match strip_prefix op (c :: r) with
  | Some after => match find_sub cl after with Some (body, _) => Some body | None => lazy_body op cl r end
  | None => lazy_body op cl r
  end.
Proof. reflexivity. Qed.

Lemma avoids_nil (p : chars) : avoids p [].
Proof. intros k b Hk. cbn in Hk. lia. Qed.

Lemma avoids_cons_tail (p : chars) (c : ascii) (a : chars) :
  avoids p (c :: a) -> avoids p a /\ forall b, strip_prefix p (c :: a ++ b)%list = None.
Proof.
  intros Hav. split.
  - intros k b Hk. apply (Hav (S k) b). cbn. lia.
  - intros b. apply (Hav 0 b). cbn. lia.
Qed.

Lemma find_sub_avoids (p a b : chars) :
  avoids p a ->
  find_sub p (a ++ b)%list = option_map (fun xz => ((a ++ fst xz)%list, snd xz)) (find_sub p b).
Proof.
  induction a as [| c a IH]; intros Hav.
  - cbn. destruct (find_sub p b) as [[x z] |]; reflexivity.
  - apply avoids_cons_tail in Hav. destruct Hav as [Hav H0].
    change ((c :: a) ++ b)%list with (c :: (a ++ b))%list.
    rewrite find_sub_unfold, H0, (IH Hav).
    destruct (find_sub p b) as [[x z] |]; reflexivity.
Qed.

Lemma lazy_body_avoids (op cl a b : chars) :
  avoids op a -> lazy_body op cl (a ++ b)%list = lazy_body op cl b.
Proof.
  induction a as [| c a IH]; intros Hav; [reflexivity |].
  apply avoids_cons_tail in Hav. destruct Hav as [Hav H0].
  change ((c :: a) ++ b)%list with (c :: (a ++ b))%list.
  rewrite lazy_body_cons, H0. apply IH, Hav.
Qed.

Lemma lazy_body_start (op cl Y body z : chars) :
  op <> [] -> find_sub cl Y = Some (body, z) -> lazy_body op cl (op ++ Y)%list = Some body.
Proof.
  intros Hop Hf. destruct op as [| c op']; [congruence |].
  change ((c :: op') ++ Y)%list with (c :: (op' ++ Y))%list.
  rewrite lazy_body_cons.
  change (c :: (op' ++ Y))%list with ((c :: op') ++ Y)%list.
  rewrite strip_prefix_app, Hf. reflexivity.
Qed.

Lemma avoids_app (p Y Z : chars) : avoids p Y -> avoids p Z -> avoids p (Y ++ Z)%list.
Proof.
  intros HY HZ k b Hk. rewrite skipn_app. rewrite length_app in Hk.
  destruct (Nat.lt_ge_cases k (length Y)) as [Hlt | Hge].
  - replace (k - length Y)%nat with 0%nat by lia. cbn [skipn].
    rewrite <- app_assoc. apply HY, Hlt.
  - rewrite (skipn_all2 Y Hge). cbn [app]. apply HZ. lia.
Qed.

Lemma avoids_no_lt (q Y : chars) :
  forallb (fun c => negb (Ascii.eqb c "<"%char)) Y = true -> avoids ("<"%char :: q) Y.
Proof.
  intros H k b Hk. destruct (skipn k Y) as [| c r] eqn:E.
  - apply (f_equal (@length ascii)) in E. rewrite length_skipn in E. cbn in E. lia.
  - assert (Hin : In c Y).
    { rewrite <- (firstn_skipn k Y), E. apply in_or_app. right. left. reflexivity. }
    rewrite forallb_forall in H. specialize (H c Hin).
    cbn [app strip_prefix].
    destruct (Ascii.eqb_spec "<"%char c) as [<- | Hne]; [discriminate H | reflexivity].
Qed.

(** Matching [m>] against [u>...] where neither [m] nor [u] holds a [>]
    succeeds only when [m = u]. *)
Lemma strip_close_tag (m u Y : chars) :
  forallb (fun c => negb (Ascii.eqb c ">"%char)) m = true ->
  forallb (fun c => negb (Ascii.eqb c ">"%char)) u = true ->
  strip_prefix (m ++ [">"%char])%list (u ++ ">"%char :: Y)%list <> None -> m = u.
Proof.
  revert u. induction m as [| a m IH]; intros u Hm Hu Hs; destruct u as [| c u].
  - reflexivity.
  - exfalso. apply Hs. cbn [app strip_prefix].
    cbn [forallb] in Hu. apply andb_prop in Hu. destruct Hu as [Hc _].
    destruct (Ascii.eqb_spec ">"%char c) as [<- | Hne]; [discriminate Hc | reflexivity].
  - exfalso. apply Hs. cbn [app strip_prefix].
    cbn [forallb] in Hm. apply andb_prop in Hm. destruct Hm as [Ha _].
    destruct (Ascii.eqb_spec a ">"%char) as [-> | Hne]; [discriminate Ha | reflexivity].
  - cbn [forallb] in Hm, Hu. apply andb_prop in Hm, Hu.
    destruct Hm as [_ Hm], Hu as [_ Hu].
    cbn [app strip_prefix] in Hs.
    destruct (Ascii.eqb_spec a c) as [-> | Hne]; [| exfalso; apply Hs; reflexivity].
    f_equal. apply IH; assumption.
Qed.

Lemma avoids_tag (m u : chars) :
  forallb (fun c => negb (Ascii.eqb c ">"%char)) m = true ->
  forallb (fun c => negb (Ascii.eqb c ">"%char)) u = true ->
  forallb (fun c => negb (Ascii.eqb c "<"%char)) u = true ->
  m <> u -> avoids ("<"%char :: m ++ [">"%char])%list ("<"%char :: u ++ [">"%char])%list.
Proof.
  intros Hm Hgt Hlt Hne [| k] b Hk.
  - cbn [skipn]. rewrite <- app_comm_cons, <- app_assoc. cbn [app strip_prefix].
    rewrite Ascii.eqb_refl.
    destruct (strip_prefix (m ++ [">"%char]) (u ++ ">"%char :: b))%list eqn:E; [| reflexivity].
    exfalso. apply Hne. apply (strip_close_tag m u b Hm Hgt). rewrite E. discriminate.
  - cbn [skipn]. apply avoids_no_lt.
    + rewrite forallb_app, Hlt. reflexivity.
    + cbn in Hk. lia.
Qed.

Lemma ident_no_angle (t : chars) :
  forallb is_ident_char t = true ->
  forallb (fun c => negb (Ascii.eqb c ">"%char)) t = true
  /\ forallb (fun c => negb (Ascii.eqb c "<"%char)) t = true.
Proof.
  rewrite !forallb_forall. intros H. split; intros c Hc; specialize (H c Hc).
  - destruct (Ascii.eqb_spec c ">"%char) as [-> | _]; [discriminate H | reflexivity].
  - destruct (Ascii.eqb_spec c "<"%char) as [-> | _]; [discriminate H | reflexivity].
Qed.

Lemma ident_not_slash (t u : chars) : forallb is_ident_char t = true -> t <> "/"%char :: u.
Proof. intros H ->. discriminate H. Qed.

Lemma render_cons (pr : chars * chars) (ps : list (chars * chars)) :
  render (pr :: ps) = (render_pair pr ++ render ps)%list.
Proof. reflexivity. Qed.

Lemma render_pair_blocks (pr : chars * chars) :
  render_pair pr
  = (("<"%char :: fst pr ++ [">"%char]) ++ snd pr ++ ("<"%char :: ("/"%char :: fst pr) ++ [">"%char]))%list.
Proof. unfold render_pair. cbn [app]. rewrite <- app_assoc. reflexivity. Qed.

Lemma render_pair_app (t v rest : chars) :
  (render_pair (t, v) ++ rest)%list
  = ("<"%char :: t ++ ">"%char :: v ++ "<"%char :: "/"%char :: t ++ ">"%char :: rest)%list.
Proof.
  unfold render_pair. cbn [fst snd]. do 4 (cbn [app]; try rewrite <- app_assoc). reflexivity.
Qed.

(** No opening or closing tag [<m>] occurs inside a rendered pair sequence
    whose tags differ from [m] and from [m] without its slash. *)
Lemma avoids_render (m : chars) (ps : list (chars * chars)) :
  forallb (fun c => negb (Ascii.eqb c ">"%char)) m = true ->
  Forall grammar_pair ps ->
  Forall (fun pr => m <> fst pr /\ m <> "/"%char :: fst pr) ps ->
  avoids ("<"%char :: m ++ [">"%char])%list (render ps).
Proof.
  intros Hm. induction ps as [| pr ps IH]; intros Hg Hd; [apply avoids_nil |].
  inversion Hg as [| ? ? Hpr Hg']; subst. inversion Hd as [| ? ? [Hd1 Hd2] Hd']; subst.
  destruct Hpr as (_ & Hid & _ & _ & Hv).
  destruct (ident_no_angle _ Hid) as [Hgt Hlt].
  rewrite render_cons, render_pair_blocks.
  apply avoids_app; [| apply IH; assumption].
  apply avoids_app; [apply avoids_tag; assumption |].
  apply avoids_app; [apply avoids_no_lt, Hv |].
  apply avoids_tag; [exact Hm | exact Hgt | exact Hlt | exact Hd2].
Qed.

Lemma span_stop (f : ascii -> bool) (l : chars) (c : ascii) (r : chars) :
  forallb f l = true -> f c = false -> span f (l ++ c :: r)%list = (l, c :: r).
Proof.
  intros Hl Hc. induction l as [| a l IH]; cbn [app span].
  - rewrite Hc. reflexivity.
  - cbn [forallb] in Hl. apply andb_prop in Hl. destruct Hl as [Ha Hl].
    rewrite Ha, (IH Hl). reflexivity.
Qed.

Lemma match_tag_render (pr : chars * chars) (rest : chars) :
  grammar_pair pr -> match_tag_at (render_pair pr ++ rest)%list = Some (fst pr, snd pr, rest).
Proof.
  destruct pr as [t v]. intros (Hne & Hid & _ & _ & Hv). cbn [fst snd] in *.
  destruct (ident_no_angle _ Hid) as [Hgt _].
  rewrite render_pair_app. unfold match_tag_at. lazy beta iota. rewrite Ascii.eqb_refl.
  rewrite (span_stop _ t ">"%char _ Hgt eq_refl).
  destruct t as [| t0 t']; [congruence |]. lazy beta iota.
  rewrite (span_stop _ v "<"%char _ Hv eq_refl). lazy beta iota.
  replace ("<"%char :: "/"%char :: (t0 :: t') ++ ">"%char :: rest)%list
    with (("<"%char :: "/"%char :: (t0 :: t') ++ [">"%char]) ++ rest)%list
    by (cbn [app]; rewrite <- app_assoc; reflexivity).
  rewrite strip_prefix_app. reflexivity.
Qed.

Lemma tag_scan_render (ps : list (chars * chars)) :
  forall fuel, Forall grammar_pair ps -> (length (render ps) <= fuel)%nat -> tag_scan fuel (render ps) = ps.
Proof.
  induction ps as [| pr ps IH]; intros fuel Hg Hf.
  - destruct fuel; reflexivity.
  - inversion Hg as [| ? ? Hpr Hg']; subst.
    assert (Hlen : (1 <= length (render_pair pr))%nat) by (unfold render_pair; cbn [length]; lia).
    rewrite render_cons in *. rewrite length_app in Hf.
    pose proof (match_tag_render pr (render ps) Hpr) as Hm.
    remember (render_pair pr ++ render ps)%list as s eqn:Es.
    destruct fuel as [| f]; [lia |].
    destruct s as [| c r]; [apply (f_equal (@length ascii)) in Es; rewrite length_app in Es; cbn in Es; lia |].
    cbn [tag_scan]. rewrite Hm. destruct pr as [t v]. cbn [fst snd]. f_equal. apply IH; [exact Hg' | lia].
Qed.

Lemma tag_pairs_render (ps : list (chars * chars)) :
  Forall grammar_pair ps -> tag_pairs (render ps) = ps.
Proof. intros Hg. apply tag_scan_render; [exact Hg | unfold tag_pairs; lia]. Qed.

(** Reading one key of the object built by [collect]: the last non-blank
    value among the entries for that key, on top of what [acc] held. *)
Lemma collect_get (prefix : string) (ps : list (chars * chars)) (k : string) :
  forall (acc : obj) (o : option chars),
  Forall (fun pr => (prefix ++ string_of_list_ascii (fst pr))%string <> "__proto__") ps ->
  obj_get acc k = match o with Some tv => JStr (string_of_list_ascii tv) | None => JUndefined end ->
  obj_get (collect prefix acc ps) k
  = match fold_left (fun acc (e : string * chars) =>
                       if String.eqb (fst e) k then
                         match js_trim (snd e) with [] => acc | tv => Some tv end
                       else acc) (entries prefix ps) o with
    | Some tv => JStr (string_of_list_ascii tv)
    | None => JUndefined
    end.
Proof.
  unfold collect, entries.
  induction ps as [| [t v] ps IH]; intros acc o Hp Hacc; [exact Hacc |].
  inversion Hp as [| ? ? Hkey Hp']; subst. cbn [fst snd] in Hkey.
  cbn [fold_left map fst snd].
  apply IH; [exact Hp' |].
  destruct (js_trim v) as [| c l] eqn:Etv.
  - destruct (String.eqb (prefix ++ string_of_list_ascii t) k); exact Hacc.
  - unfold obj_assign.
    destruct (String.eqb_spec (prefix ++ string_of_list_ascii t) "__proto__") as [E | _]; [contradiction |].
    rewrite UpsertFacts.obj_get_set.
    destruct (String.eqb_spec k (prefix ++ string_of_list_ascii t)) as [-> | Hne].
    + rewrite String.eqb_refl. reflexivity.
    + destruct (String.eqb_spec (prefix ++ string_of_list_ascii t) k) as [E | _]; [congruence | exact Hacc].
Qed.

Lemma str_of_chars (x : chars) : str (string_of_list_ascii x) = x.
Proof. apply list_ascii_of_string_of_list_ascii. Qed.

Lemma includes_start (p r : chars) : includes p (p ++ r)%list = true.
Proof. unfold includes. rewrite find_sub_start. reflexivity. Qed.

Lemma grammar_avoids_new (ps : list (chars * chars)) :
  Forall grammar_pair ps -> avoids (str "<new>") (render ps).
Proof.
  intros Hg. change (str "<new>") with ("<"%char :: str "new" ++ [">"%char])%list.
  apply avoids_render; [reflexivity | exact Hg |].
  revert Hg. apply Forall_impl. intros pr (_ & _ & Hn & _ & _). split; [| discriminate].
  intros E. apply Hn. symmetry. exact E.
Qed.

Lemma grammar_avoids_old (ps : list (chars * chars)) :
  Forall grammar_pair ps -> avoids (str "<old>") (render ps).
Proof.
  intros Hg. change (str "<old>") with ("<"%char :: str "old" ++ [">"%char])%list.
  apply avoids_render; [reflexivity | exact Hg |].
  revert Hg. apply Forall_impl. intros pr (_ & _ & _ & Ho & _). split; [| discriminate].
  intros E. apply Ho. symmetry. exact E.
Qed.

Lemma grammar_avoids_close (w : chars) (ps : list (chars * chars)) :
  forallb (fun c => negb (Ascii.eqb c ">"%char)) w = true ->
  Forall (fun pr => w <> fst pr) ps -> Forall grammar_pair ps ->
  avoids ("<"%char :: ("/"%char :: w) ++ [">"%char])%list (render ps).
Proof.
  intros Hw Hd Hg. apply avoids_render; [exact Hw | exact Hg |].
  apply Forall_forall. intros pr Hin.
  pose proof (proj1 (Forall_forall _ _) Hg pr Hin) as (_ & Hid & _ & _ & _).
  pose proof (proj1 (Forall_forall _ _) Hd pr Hin) as Hne.
  split.
  - intros E. apply (ident_not_slash (fst pr) w Hid). symmetry. exact E.
  - intros E. injection E as E. contradiction.
Qed.

(** Claim C10: decoding a [recordData] of the minimal wire grammar, a
    sequence of pairs [<tag>value</tag>] or the update form
    [<new>pairs</new><old>pairs</old>] (tags identifiers other than [new],
    [old] and, outside [<old>], [__proto__]; values free of [<]), gives for
    every key the last non-blank trimmed value of the pairs flattened to
    [tag] (under [<new>] or at top level) or [old_tag] (under [<old>]); a
    key whose values are all blank gets no entry. *)
Theorem xml_wire_grammar_flattens (ps ps1 ps2 : list (chars * chars)) (k : string)
  (Hg : Forall grammar_pair ps) (Hg1 : Forall grammar_pair ps1) (Hg2 : Forall grammar_pair ps2)
  (Hp : Forall (fun pr => fst pr <> str "__proto__") ps)
  (Hp1 : Forall (fun pr => fst pr <> str "__proto__") ps1) :
  obj_get (parseXMLToObject (string_of_list_ascii (render ps))) k = flat_get (entries "" ps) k
  /\ obj_get (parseXMLToObject (string_of_list_ascii (render_update ps1 ps2))) k
     = flat_get (entries "" ps1 ++ entries "old_" ps2)%list k.
Proof.
  assert (Hproto : forall qs : list (chars * chars), Forall (fun pr => fst pr <> str "__proto__") qs ->
            Forall (fun pr => ("" ++ string_of_list_ascii (fst pr))%string <> "__proto__") qs).
  { intros qs. apply Forall_impl. intros pr Hpr E. apply Hpr.
    change (string_of_list_ascii (fst pr) = "__proto__") in E.
    rewrite <- E, str_of_chars. reflexivity. }
  unfold parseXMLToObject. cbv zeta. rewrite !str_of_chars.
  split.
  - assert (Hn : includes (str "<new>") (render ps) = false).
    { unfold includes. rewrite <- (app_nil_r (render ps)).
      rewrite (find_sub_avoids _ _ _ (grammar_avoids_new ps Hg)). reflexivity. }
    rewrite Hn. cbn [andb]. rewrite (tag_pairs_render ps Hg).
    unfold flat_get, last_value. apply collect_get; [apply Hproto, Hp | reflexivity].
  - assert (Hd1 : Forall (fun pr => str "new" <> fst pr) ps1).
    { revert Hg1. apply Forall_impl. intros pr (_ & _ & Hn & _ & _) E. apply Hn. symmetry. exact E. }
    assert (Hd2 : Forall (fun pr => str "old" <> fst pr) ps2).
    { revert Hg2. apply Forall_impl. intros pr (_ & _ & _ & Ho & _) E. apply Ho. symmetry. exact E. }
    set (A := (str "<new>" ++ render ps1 ++ str "</new>")%list).
    assert (Ex : render_update ps1 ps2 = (A ++ str "<old>" ++ render ps2 ++ str "</old>")%list).
    { unfold render_update, A. rewrite <- !app_assoc. reflexivity. }
    assert (HA : avoids (str "<old>") A).
    { change (str "<old>") with ("<"%char :: str "old" ++ [">"%char])%list. unfold A.
      apply avoids_app.
      { change (str "<new>") with ("<"%char :: str "new" ++ [">"%char])%list.
        apply avoids_tag; [reflexivity | reflexivity | reflexivity | discriminate]. }
      apply avoids_app; [apply grammar_avoids_old, Hg1 |].
      change (str "</new>") with ("<"%char :: ("/"%char :: str "new") ++ [">"%char])%list.
      apply avoids_tag; [reflexivity | reflexivity | reflexivity | discriminate]. }
    assert (Hnew : lazy_body (str "<new>") (str "</new>") (render_update ps1 ps2) = Some (render ps1)).
    { unfold render_update. rewrite <- (app_nil_r (render ps1)) at 2.
      apply (lazy_body_start _ _ _ _ (str "<old>" ++ render ps2 ++ str "</old>")%list); [discriminate |].
      rewrite (find_sub_avoids _ _ _ (grammar_avoids_close (str "new") ps1 eq_refl Hd1 Hg1)), find_sub_start.
      reflexivity. }
    assert (Hold : lazy_body (str "<old>") (str "</old>") (render_update ps1 ps2) = Some (render ps2)).
    { rewrite Ex, (lazy_body_avoids _ _ _ _ HA). rewrite <- (app_nil_r (render ps2)) at 2.
      apply (lazy_body_start _ _ _ _ []); [discriminate |].
      rewrite (find_sub_avoids _ _ _ (grammar_avoids_close (str "old") ps2 eq_refl Hd2 Hg2)).
      reflexivity. }
    assert (Hin : includes (str "<new>") (render_update ps1 ps2) = true)
      by (unfold render_update; apply includes_start).
    assert (Hio : includes (str "<old>") (render_update ps1 ps2) = true).
    { rewrite Ex. unfold includes. rewrite (find_sub_avoids _ _ _ HA), find_sub_start. reflexivity. }
    rewrite Hin, Hio, Hnew, Hold. cbn [andb].
    rewrite (tag_pairs_render ps1 Hg1), (tag_pairs_render ps2 Hg2).
    unfold flat_get, last_value. rewrite fold_left_app.
    apply collect_get.
    + apply Forall_forall. intros pr _. discriminate.
    + apply collect_get; [apply Hproto, Hp1 | reflexivity].
Qed.

Lemma xml_wire_grammar_flattens_witness :
  Forall grammar_pair [(str "InvoiceNo", str "I1"); (str "Qty", str " 2 ")]
  /\ obj_get (parseXMLToObject (string_of_list_ascii
                                 (render [(str "InvoiceNo", str "I1"); (str "Qty", str " 2 ")]))) "Qty"
     = flat_get (entries "" [(str "InvoiceNo", str "I1"); (str "Qty", str " 2 ")]) "Qty"
  /\ obj_get (parseXMLToObject (string_of_list_ascii
                                 (render_update [(str "Qty", str "3")] [(str "Qty", str "7")]))) "Qty"
     = flat_get (entries "" [(str "Qty", str "3")] ++ entries "old_" [(str "Qty", str "7")])%list "Qty".
Proof.
  assert (Hg : forall t v, forallb is_ident_char (str t) = true ->
                 forallb (fun c => negb (Ascii.eqb c "<"%char)) (str v) = true ->
                 str t <> [] -> str t <> str "new" -> str t <> str "old" ->
                 grammar_pair (str t, str v))
    by (intros t v H1 H2 H3 H4 H5; repeat split; assumption).
  split; [repeat constructor; apply Hg; (reflexivity || discriminate) |].
  apply (xml_wire_grammar_flattens [(str "InvoiceNo", str "I1"); (str "Qty", str " 2 ")]
           [(str "Qty", str "3")] [(str "Qty", str "7")] "Qty");
    repeat constructor; first [apply Hg; (reflexivity || discriminate) | discriminate].
Defined.

(** A pair with a blank value is dropped: [<Note></Note><Qty>2</Qty>]
    decodes to [{Qty: "2"}], with no entry for [Note]. *)
Lemma blank_value_dropped :
  parseXMLToObject "<Note></Note><Qty>2</Qty>" = [("Qty", JStr "2")]
  /\ obj_get (parseXMLToObject "<Note></Note><Qty>2</Qty>") "Note" = JUndefined.
Proof. split; vm_compute; reflexivity. Defined.

End XmlFacts.

(** ** Legacy UPDATE / DELETE / INSERT handlers *)

Module LegacyFacts.

Lemma obj_delete_keys (o : obj) (f k : string) :
  In k (obj_keys (obj_delete o f)) <-> In k (obj_keys o) /\ k <> f.
Proof.
  unfold obj_keys, obj_delete. rewrite !in_map_iff. split.
  - intros [[k' v] [E Hin]]. cbn in E. subst k'. apply filter_In in Hin as [Hin Hf].
    cbn in Hf. apply negb_true_iff, String.eqb_neq in Hf.
    split; [exists (k, v); auto | exact Hf].
  - intros [[[k' v] [E Hin]] Hne]. cbn in E. subst k'. exists (k, v). split; [reflexivity |].
    apply filter_In. split; [exact Hin |]. cbn. apply negb_true_iff, String.eqb_neq. exact Hne.
Qed.

Lemma fold_delete_obj (fs : list string) (o : obj) :
  exists o', fold_left jv_delete fs (JObj o) = JObj o'
             /\ forall k, In k (obj_keys o') <-> In k (obj_keys o) /\ ~ In k fs.
Proof.
  revert o. induction fs as [| f fs IH]; intros o; cbn.
  - exists o. split; [reflexivity |]. intros k. tauto.
  - destruct (IH (obj_delete o f)) as [o' [E Hk]]. exists o'. split; [exact E |].
    intros k. rewrite Hk, obj_delete_keys. intuition congruence.
Qed.

Lemma fold_delete_other (fs : list string) (u : jsval) :
  (forall o, u <> JObj o) -> fold_left jv_delete fs u = u.
Proof.
  intros Hu. revert u Hu. induction fs as [| f fs IH]; intros u Hu; cbn; [reflexivity |].
  destruct u; try (apply IH; exact Hu). exfalso. exact (Hu fields eq_refl).
Qed.

Lemma dec_fuel_head (f n : nat) (acc : string) :
  exists c r, dec_fuel (S f) n acc = String c r /\ is_digit c = true.
Proof.
  revert n acc. induction f as [| f IH]; intros n acc.
  - cbn [dec_fuel]. set (d := ascii_of_nat (48 + n mod 10)).
    assert (Hd : is_digit d = true).
    { unfold is_digit, d. pose proof (Nat.mod_upper_bound n 10 ltac:(lia)).
      rewrite Ascii.nat_ascii_embedding by lia. apply andb_true_iff. split; apply Nat.leb_le; lia. }
    destruct (n <? 10)%nat; exists d; eexists; split; try reflexivity; exact Hd.
  - cbn [dec_fuel]. set (d := ascii_of_nat (48 + n mod 10)).
    assert (Hd : is_digit d = true).
    { unfold is_digit, d. pose proof (Nat.mod_upper_bound n 10 ltac:(lia)).
      rewrite Ascii.nat_ascii_embedding by lia. apply andb_true_iff. split; apply Nat.leb_le; lia. }
    destruct (n <? 10)%nat.
    + exists d; eexists; split; [reflexivity | exact Hd].
    + apply IH.
Qed.

Lemma nat_dec_head (n : nat) : exists c r, nat_dec n = String c r /\ is_digit c = true.
Proof. apply dec_fuel_head. Qed.

Lemma where_field_head (tbl f : string) :
  In f (getWhereFields tbl) -> exists c r, f = String c r /\ is_digit c = false.
Proof.
  unfold getWhereFields.
  repeat match goal with |- context [if ?b then _ else _] => destruct b end;
    cbn; intros H; repeat destruct H as [H | H]; subst; try contradiction;
    eexists; eexists; split; reflexivity.
Qed.

Lemma deleted_keys_absent (fs : list string) (u : jsval) (ue : obj) (f : string) :
  (forall g, In g fs -> exists c r, g = String c r /\ is_digit c = false) ->
  own_entries (fold_left jv_delete fs u) = Ok ue -> In f fs -> ~ In f (obj_keys ue).
Proof.
  intros Hfs Hu Hf Hin.
  destruct u as [| | b | z | s | o].
  - rewrite fold_delete_other in Hu by discriminate. discriminate.
  - rewrite fold_delete_other in Hu by discriminate. discriminate.
  - rewrite fold_delete_other in Hu by discriminate. injection Hu as <-. contradiction.
  - rewrite fold_delete_other in Hu by discriminate. injection Hu as <-. contradiction.
  - rewrite fold_delete_other in Hu by discriminate. injection Hu as <-.
    unfold obj_keys in Hin. apply in_map_iff in Hin as [[k v] [E Hkv]]. cbn in E. subst k.
    apply in_combine_l in Hkv. apply in_map_iff in Hkv as [i [E _]].
    destruct (nat_dec_head i) as [c [r [Ei Hc]]].
    destruct (Hfs f Hf) as [c' [r' [Ef Hc']]]. rewrite Ei, Ef in E. injection E as -> _. congruence.
  - destruct (fold_delete_obj fs o) as [o' [E Hk]]. rewrite E in Hu. injection Hu as <-.
    apply Hk in Hin. tauto.
Qed.

Lemma obj_get_not_key (o : obj) (k : string) : ~ In k (obj_keys o) -> obj_get o k = JUndefined.
Proof.
  induction o as [| [k' v] r IH]; cbn; intros H; [reflexivity |].
  destruct (String.eqb_spec k k') as [-> | _]; [tauto | apply IH; tauto].
Qed.

Lemma obj_set_nonempty (o : obj) (k : string) (v : jsval) : obj_set o k v <> [].
Proof. destruct o as [| [k' v'] r]; cbn; [discriminate |]. destruct (String.eqb k k'); discriminate. Qed.

Lemma where_fold_nonempty (src : jsval) (fs : list string) (w : obj) :
  w <> [] \/ (exists f, In f fs /\ defined (jv_get src f) = true) ->
  fold_left (fun w f => if defined (jv_get src f) then obj_set w f (jv_get src f) else w) fs w <> [].
Proof.
  revert w. induction fs as [| f fs IH]; intros w H; cbn.
  - destruct H as [H | [f [[] _]]]. exact H.
  - apply IH. destruct (defined (jv_get src f)) eqn:Hd.
    + left. apply obj_set_nonempty.
    + destruct H as [H | [g [[-> | Hg] Hdg]]]; [left; exact H | congruence | right; exists g; auto].
Qed.

(** [handleUpdate] never writes a key column: the SET columns (the keys of
    [updateData]) exclude every field [getWhereFields] lists for the table,
    whichever form the data takes. *)
Theorem update_data_excludes_where_fields (tbl : string) (data ue : obj) (f : string) :
  own_entries (getUpdateData tbl data) = Ok ue ->
  In f (getWhereFields tbl) -> ~ In f (obj_keys ue).
Proof.
  intros Hu Hf. unfold getUpdateData in Hu.
  eapply deleted_keys_absent; [| exact Hu | exact Hf].
  intros g Hg. apply (where_field_head tbl g Hg).
Qed.

Lemma update_data_excludes_where_fields_witness :
  own_entries (getUpdateData "SalesDetail"
                 [("new", JObj [("inserted", JObj [("InvoiceNo", JStr "A1"); ("Qty", JNum 2)])])])
    = Ok [("Qty", JNum 2)]
  /\ In "InvoiceNo" (getWhereFields "SalesDetail")
  /\ ~ In "InvoiceNo" (obj_keys [("Qty", JNum 2)]).
Proof.
  split; [reflexivity |]. split; [cbn; left; reflexivity |].
  apply (update_data_excludes_where_fields "SalesDetail"
           [("new", JObj [("inserted", JObj [("InvoiceNo", JStr "A1"); ("Qty", JNum 2)])])]
           [("Qty", JNum 2)] "InvoiceNo"); [reflexivity | cbn; left; reflexivity].
Defined.

(** A legacy UPDATE whose data has no [new] part, no truthy [ID] and no
    field besides [_key] and the table's key fields is a silent no-op:
    once some key field is defined, [handleUpdate] runs no statement and
    reports [rowsAffected: 0]. *)
Theorem update_of_key_fields_is_noop {D : Type} (tableExists : D -> string -> bool)
    (exec : D -> stmt -> D * db_result) (db : D) (tbl : string) (data : obj) :
  tableExists db tbl = true ->
  js_truthy (obj_get data "new") = false ->
  js_truthy (obj_get data "ID") = false ->
  (forall k, In k (obj_keys data) -> k = "_key" \/ In k (getWhereFields tbl)) ->
  (exists f, In f (getWhereFields tbl) /\ defined (obj_get data f) = true) ->
  handleUpdate tableExists exec db tbl data = (db, Ok 0%Z).
Proof.
  intros Hex Hnew Hid Hkeys Hdef.
  unfold handleUpdate. rewrite Hex. cbn [negb].
  assert (Hold : obj_get data "old" = JUndefined).
  { apply obj_get_not_key. intros Hin. destruct (Hkeys _ Hin) as [E | Hw]; [discriminate |].
    destruct (where_field_head tbl "old" Hw) as [c [r [E Hc]]]. unfold getWhereFields in Hw.
    repeat match type of Hw with context [if ?b then _ else _] => destruct b end;
      cbn in Hw; intuition discriminate. }
  unfold legacy_update_plan, buildWhereCondition. cbn [jv_get andb].
  rewrite Hold, Hnew. cbn [js_truthy negb andb].
  match goal with |- context [match fold_left ?g (getWhereFields tbl) [] with _ => _ end] =>
    destruct (fold_left g (getWhereFields tbl) []) as [| p ps] eqn:Hw end.
  { exfalso. revert Hw. apply where_fold_nonempty. right. exact Hdef. }
  unfold getUpdateData. rewrite Hnew, Hid.
  destruct (fold_delete_obj (getWhereFields tbl) (obj_delete data "_key")) as [o' [E Hk]].
  rewrite E. cbn [own_entries].
  assert (Ho' : o' = []).
  { destruct o' as [| [k v] r]; [reflexivity | exfalso].
    assert (Hin : In k (obj_keys ((k, v) :: r))) by (left; reflexivity).
    apply Hk in Hin as [Hin Hnw]. apply obj_delete_keys in Hin as [Hin Hnk].
    destruct (Hkeys k Hin); contradiction. }
  subst o'. reflexivity.
Qed.

Lemma update_of_key_fields_is_noop_witness :
  handleUpdate (fun (_ : list stmt) _ => true) (fun db st => (st :: db, DbOk 1)) []
    "SalesDetail" [("InvoiceNo", JStr "A1"); ("StockId", JNum 7); ("_key", JStr "k")]
  = ([], Ok 0%Z).
Proof.
  apply (update_of_key_fields_is_noop (fun (_ : list stmt) _ => true) (fun db st => (st :: db, DbOk 1)) []
           "SalesDetail" [("InvoiceNo", JStr "A1"); ("StockId", JNum 7); ("_key", JStr "k")]).
  - reflexivity.
  - reflexivity.
  - reflexivity.
  - cbn. intros k [<- | [<- | [<- | []]]]; [right; left | right; right; left | left]; reflexivity.
  - exists "InvoiceNo". split; [cbn; left; reflexivity | reflexivity].
Defined.

Lemma full_sync_insert_ops {D : Type} (tableExists : D -> string -> bool)
    (exec : D -> stmt -> D * db_result) (db db' : D) (tbl : string) (row : obj) (res : insert_result) :
  handleInsert tableExists exec db tbl row true = (db', Ok res) ->
  operation res = "INSERT" \/ operation res = "SKIP".
Proof.
  unfold handleInsert. destruct (tableExists db tbl); cbn [negb]; [| discriminate].
  destruct (exec db (legacy_insert_stmt tbl row)) as [db1 [n | code m]].
  - intros H. injection H as _ <-. left. reflexivity.
  - destruct (String.eqb code "ER_DUP_ENTRY"); intros H; [| discriminate].
    injection H as _ <-. right. reflexivity.
Qed.

Lemma full_sync_rows_counts {D : Type} (tableExists : D -> string -> bool)
    (exec : D -> stmt -> D * db_result) (db : D) (tbl : string) (rows : list obj) (c : batch_counts) :
  updateCount c = 0%nat -> successCount c = (insertCount c + skipCount c)%nat ->
  let c' := snd (full_sync_rows tableExists exec db tbl rows c) in
  updateCount c' = 0%nat /\ successCount c' = (insertCount c' + skipCount c')%nat
  /\ (successCount c' + errorCount c' = successCount c + errorCount c + length rows)%nat.
Proof.
  revert db c. induction rows as [| row rows IH]; intros db c Hu Hs; cbn zeta.
  - cbn. lia.
  - cbn [full_sync_rows].
    destruct (handleInsert tableExists exec db tbl row true) as [db' r] eqn:Hr.
    destruct r as [res | m].
    + destruct (full_sync_insert_ops tableExists exec db db' tbl row res Hr) as [Eo | Eo];
        cbn [count_row]; rewrite Eo; cbn.
      * destruct (IH db' (mkCounts (S (successCount c)) (errorCount c) (S (insertCount c))
                                   (updateCount c) (skipCount c))) as [A [B C]]; cbn; try lia.
        cbn in C. cbn [length]. lia.
      * destruct (IH db' (mkCounts (S (successCount c)) (errorCount c) (insertCount c)
                                   (updateCount c) (S (skipCount c)))) as [A [B C]]; cbn; try lia.
        cbn in C. cbn [length]. lia.
    + cbn [count_row].
      destruct (IH db' (mkCounts (successCount c) (S (errorCount c)) (insertCount c)
                                 (updateCount c) (skipCount c))) as [A [B C]]; cbn; try lia.
      cbn in C. cbn [length]. lia.
Qed.

(** The row loop of [full_data_sync_response] calls [handleInsert] with
    [isFullSync = true], so a duplicate is skipped and never updated: the
    reported [batchUpdateCount] is always 0, every success is an insert or
    a skip, and every row is counted once as a success or an error. *)
Theorem full_sync_batch_counts {D : Type} (tableExists : D -> string -> bool)
    (exec : D -> stmt -> D * db_result) (db : D) (tbl : string) (rows : list obj) :
  let c := snd (full_sync_batch tableExists exec db tbl rows) in
  updateCount c = 0%nat /\ successCount c = (insertCount c + skipCount c)%nat
  /\ (successCount c + errorCount c = length rows)%nat.
Proof.
  cbn zeta. unfold full_sync_batch.
  destruct (full_sync_rows_counts tableExists exec db tbl rows (mkCounts 0 0 0 0 0)) as [A [B C]];
    try reflexivity.
  cbn in C. auto.
Qed.

(** [buildWhereCondition] reads [Data.old] for an UPDATE and [Data.new]
    for a DELETE: once [old] is truthy the UPDATE condition does not depend
    on [new], and once [new] is truthy the DELETE condition does not depend
    on [old]. *)
Theorem where_source_by_operation (tbl : string) (data : obj) (v : jsval) :
  (js_truthy (obj_get data "old") = true ->
   buildWhereCondition tbl (JObj (obj_set data "new" v)) true = buildWhereCondition tbl (JObj data) true)
  /\ (js_truthy (obj_get data "new") = true ->
   buildWhereCondition tbl (JObj (obj_set data "old" v)) false = buildWhereCondition tbl (JObj data) false).
Proof.
  split; intros H; unfold buildWhereCondition; cbn [jv_get];
    rewrite !UpsertFacts.obj_get_set; cbn [String.eqb Ascii.eqb Bool.eqb andb]; rewrite H;
    cbn [negb andb]; reflexivity.
Qed.

Lemma where_source_by_operation_witness :
  js_truthy (obj_get [("old", JObj [("InvoiceNo", JStr "A1")]); ("new", JObj [("InvoiceNo", JStr "B2")])] "old") = true
  /\ buildWhereCondition "Sales"
       (JObj (obj_set [("old", JObj [("InvoiceNo", JStr "A1")]); ("new", JObj [("InvoiceNo", JStr "B2")])] "new" JNull)) true
     = buildWhereCondition "Sales"
       (JObj [("old", JObj [("InvoiceNo", JStr "A1")]); ("new", JObj [("InvoiceNo", JStr "B2")])]) true
  /\ js_truthy (obj_get [("old", JObj [("InvoiceNo", JStr "A1")]); ("new", JObj [("InvoiceNo", JStr "B2")])] "new") = true
  /\ buildWhereCondition "Sales"
       (JObj (obj_set [("old", JObj [("InvoiceNo", JStr "A1")]); ("new", JObj [("InvoiceNo", JStr "B2")])] "old" JNull)) false
     = buildWhereCondition "Sales"
       (JObj [("old", JObj [("InvoiceNo", JStr "A1")]); ("new", JObj [("InvoiceNo", JStr "B2")])]) false.
Proof.
  destruct (where_source_by_operation "Sales"
              [("old", JObj [("InvoiceNo", JStr "A1")]); ("new", JObj [("InvoiceNo", JStr "B2")])] JNull)
    as [A B].
  split; [reflexivity |]. split; [apply A; reflexivity |].
  split; [reflexivity | apply B; reflexivity].
Defined.

End LegacyFacts.

(** ** Table creation from a client schema *)

Module SchemaFacts.

Lemma str_chars (x : chars) : str (string_of_list_ascii x) = x.
Proof. apply list_ascii_of_string_of_list_ascii. Qed.

Lemma sappend_assoc (a b c : string) : ((a ++ b) ++ c)%string = (a ++ (b ++ c))%string.
Proof. induction a as [| x a IH]; cbn; [reflexivity | now rewrite IH]. Qed.

Lemma double_quotes_read (s rest : chars) :
  ~ In "\"%char s -> hd_error rest <> Some "'"%char ->
  mysql_string_body (double_quotes s ++ "'"%char :: rest)%list = Some (s, rest).
Proof.
  intros Hb Hr. induction s as [| a s IH]; cbn [double_quotes app].
  - cbn [mysql_string_body Ascii.eqb Bool.eqb]. destruct rest as [| d r'].
    + reflexivity.
    + destruct (Ascii.eqb_spec d "'"%char) as [-> | Hd]; [cbn in Hr; congruence | reflexivity].
  - assert (IH' : mysql_string_body (double_quotes s ++ "'"%char :: rest)%list = Some (s, rest))
      by (apply IH; intros H; apply Hb; right; exact H).
    destruct (Ascii.eqb_spec a "'"%char) as [-> | Ha].
    + cbn [mysql_string_body app]. rewrite Ascii.eqb_refl, IH'. reflexivity.
    + cbn [mysql_string_body app].
      destruct (Ascii.eqb_spec a "'"%char) as [E | _]; [contradiction |].
      destruct (Ascii.eqb_spec a "\"%char) as [E | _]; [subst; exfalso; apply Hb; left; reflexivity |].
      rewrite IH'. reflexivity.
Qed.

(** For a character or text column, the default that [formatDefaultValue]
    writes is one quoted literal which MySQL reads back as exactly the
    client's value and which ends at the quote the code appends, provided
    the value has no backslash (and no [getdate()] / [newid()] marker). *)
Theorem char_default_reads_back (s dt : string) (rest : chars) :
  (includes (str "char") (str (js_lower dt)) || includes (str "text") (str (js_lower dt))) = true ->
  (includes (str "getdate()") (str s) || includes (str "GETDATE()") (str s)) = false ->
  (includes (str "newid()") (str s) || includes (str "NEWID()") (str s)) = false ->
  ~ In "\"%char (str s) ->
  hd_error rest <> Some "'"%char ->
  exists body, formatDefaultValue (JStr s) dt = Some ("'" ++ body ++ "'")
               /\ mysql_string_body (str body ++ "'"%char :: rest)%list = Some (str s, rest).
Proof.
  intros Hty Hg Hn Hb Hr.
  exists (string_of_list_ascii (double_quotes (str s))). split.
  - unfold formatDefaultValue. cbn [js_string]. rewrite Hg, Hn.
    assert (E : (includes (str "varchar") (str (js_lower dt)) || includes (str "char") (str (js_lower dt))
                 || includes (str "text") (str (js_lower dt))) = true).
    { destruct (includes (str "varchar") (str (js_lower dt))); [reflexivity |]. exact Hty. }
    rewrite E. reflexivity.
  - rewrite str_chars. apply double_quotes_read; assumption.
Qed.

Lemma char_default_reads_back_witness :
  exists body, formatDefaultValue (JStr "it's") "NVARCHAR" = Some ("'" ++ body ++ "'")
               /\ mysql_string_body (str body ++ "'"%char :: str " NOT NULL")%list
                  = Some (str "it's", str " NOT NULL").
Proof.
  apply (char_default_reads_back "it's" "NVARCHAR" (str " NOT NULL")).
  - reflexivity.
  - reflexivity.
  - reflexivity.
  - cbn. intros H. repeat destruct H as [H | H]; try discriminate; exact H.
  - cbn. discriminate.
Defined.

Lemma ascii_lower_idem (c : ascii) : ascii_lower (ascii_lower c) = ascii_lower c.
Proof. destruct c as [[] [] [] [] [] [] [] []]; reflexivity. Qed.

Lemma js_lower_idem (s : string) : js_lower (js_lower s) = js_lower s.
Proof.
  unfold js_lower, str. rewrite list_ascii_of_string_of_list_ascii, map_map.
  f_equal. apply map_ext. apply ascii_lower_idem.
Qed.

(** The type mapping ignores letter case: a column whose [DATA_TYPE] is
    replaced by its lower-case form maps to the same MySQL type, and its
    default is formatted the same way. *)
Theorem type_mapping_case_insensitive (column : obj) (s : string) :
  obj_get column "DATA_TYPE" = JStr s ->
  convertToMySQLType (obj_set column "DATA_TYPE" (JStr (js_lower s))) = convertToMySQLType column
  /\ forall v, formatDefaultValue v (js_lower s) = formatDefaultValue v s.
Proof.
  intros H. split.
  - unfold convertToMySQLType. rewrite !UpsertFacts.obj_get_set. cbn [String.eqb Ascii.eqb Bool.eqb].
    rewrite H, js_lower_idem. reflexivity.
  - intros v. unfold formatDefaultValue. rewrite js_lower_idem. reflexivity.
Qed.

Lemma type_mapping_case_insensitive_witness :
  convertToMySQLType (obj_set [("DATA_TYPE", JStr "NVarChar")] "DATA_TYPE" (JStr (js_lower "NVarChar")))
  = convertToMySQLType [("DATA_TYPE", JStr "NVarChar")]
  /\ forall v, formatDefaultValue v (js_lower "NVarChar") = formatDefaultValue v "NVarChar".
Proof. apply (type_mapping_case_insensitive [("DATA_TYPE", JStr "NVarChar")] "NVarChar"). reflexivity. Defined.

End SchemaFacts.

(** ** CSV bulk upload, header line and row batches *)

Module CsvFacts.

(** Upload queue *)

Lemma uploads_cons (q : list (string * csv_upload)) (a : option string) (t f : string) (fs : list string) :
  uploads q a t (f :: fs) = uploads (fst (handleCSVBulkUpload q a t f true)) a t fs.
Proof. reflexivity. Qed.

Lemma uploads_entry (q : list (string * csv_upload)) (a : option string) (t : string)
    (fs : list string) (i : csv_upload) :
  smap_get q (upload_key a t) = Some i ->
  smap_get (uploads q a t fs) (upload_key a t)
  = Some (mkCsvUpload (cu_appId i) (cu_tableName i) (cu_files i ++ fs)%list
                      (last_total (cu_expectedFiles i) fs)).
Proof.
  revert q i. induction fs as [| f fs IH]; intros q i Hq.
  - cbn. rewrite Hq, app_nil_r. destruct i; reflexivity.
  - rewrite uploads_cons.
    rewrite (IH _ (mkCsvUpload (cu_appId i) (cu_tableName i) (cu_files i ++ [f])%list
                               (match batch_total f with Some m => m | None => cu_expectedFiles i end))).
    + cbn [cu_appId cu_tableName cu_files cu_expectedFiles]. rewrite <- app_assoc. reflexivity.
    + unfold handleCSVBulkUpload. cbn [negb fst]. rewrite Hq.
      apply ChunkFacts.smap_get_set_same.
Qed.

(** [handleCSVBulkUpload] then [getCSVUploadInfo]: starting with no entry
    for the app and table, after the files [fs] (at least one) have been
    uploaded, the entry lists [fs] in arrival order, repeats included,
    expects the total announced by the last batch-named file ([0] when
    none is), and [allFilesReceived] holds exactly when that total is
    positive and at most the number of uploads.  The announced totals are
    at most 2^53, where [parseInt] reads the numeral exactly. *)
Theorem csv_upload_info_after_uploads (q : list (string * csv_upload)) (a : option string)
    (t : string) (fs : list string) :
  smap_get q (upload_key a t) = None -> fs <> [] ->
  (forall f m, In f fs -> batch_total f = Some m -> (m <= 2 ^ 53)%Z) ->
  getCSVUploadInfo (uploads q a t fs) a t
  = Some (mkCsvUpload a t fs (last_total 0 fs),
          (0 <? last_total 0 fs)%Z && (Z.of_nat (length fs) >=? last_total 0 fs)%Z).
Proof.
  intros Hq Hne _. destruct fs as [| f fs]; [congruence |].
  unfold getCSVUploadInfo. rewrite uploads_cons.
  rewrite (uploads_entry _ a t fs (mkCsvUpload a t [f]
             (match batch_total f with Some m => m | None => 0%Z end))).
  - reflexivity.
  - unfold handleCSVBulkUpload. cbn [negb fst]. rewrite Hq.
    apply ChunkFacts.smap_get_set_same.
Qed.

Lemma csv_upload_info_after_uploads_witness :
  getCSVUploadInfo (uploads [] (Some "app1") "Sales"
                            ["Sales_batch_1_of_2_100.csv"; "Sales_batch_1_of_2_100.csv"])
                   (Some "app1") "Sales"
  = Some (mkCsvUpload (Some "app1") "Sales"
                      ["Sales_batch_1_of_2_100.csv"; "Sales_batch_1_of_2_100.csv"] 2, true).
Proof.
  rewrite (csv_upload_info_after_uploads [] (Some "app1") "Sales"
             ["Sales_batch_1_of_2_100.csv"; "Sales_batch_1_of_2_100.csv"]);
    [vm_compute; reflexivity | reflexivity | discriminate |].
  intros f m Hf H. destruct Hf as [<- | [<- | []]]; vm_compute in H; injection H as <-;
    vm_compute; discriminate.
Defined.

(** Batch file names *)

Lemma str_app (a b : string) : str (a ++ b) = (str a ++ str b)%list.
Proof. induction a as [| c a IH]; cbn; [reflexivity | f_equal; exact IH]. Qed.

Lemma digits_value_snoc (d : chars) (c : ascii) :
  digits_value (d ++ [c])%list = (digits_value d * 10 + Z.of_nat (nat_of_ascii c - 48))%Z.
Proof. unfold digits_value. rewrite fold_left_app. reflexivity. Qed.

Lemma digit_char (k : nat) :
  (k < 10)%nat ->
  is_digit (ascii_of_nat (48 + k)) = true /\ nat_of_ascii (ascii_of_nat (48 + k)) - 48 = k.
Proof.
  intros Hk. unfold is_digit. rewrite Ascii.nat_ascii_embedding by lia.
  split; [apply andb_true_iff; split; apply Nat.leb_le; lia | lia].
Qed.

Lemma dec_fuel_digits (f n : nat) (acc : string) :
  (n < f)%nat ->
  exists d, str (dec_fuel f n acc) = (d ++ str acc)%list /\ d <> []
            /\ forallb is_digit d = true /\ digits_value d = Z.of_nat n.
Proof.
  revert n acc. induction f as [| f IH]; intros n acc Hn; [lia |].
  cbn [dec_fuel].
  pose proof (Nat.mod_upper_bound n 10 ltac:(lia)) as Hm.
  destruct (digit_char (n mod 10) Hm) as [Hd Hv].
  destruct (n <? 10)%nat eqn:Hlt.
  - apply Nat.ltb_lt in Hlt.
    exists [ascii_of_nat (48 + n mod 10)]. split; [reflexivity |].
    split; [discriminate |]. cbn [forallb]. rewrite Hd. split; [reflexivity |].
    unfold digits_value. cbn [fold_left]. rewrite Hv, Nat.mod_small by exact Hlt. lia.
  - apply Nat.ltb_ge in Hlt.
    destruct (IH (n / 10) (String (ascii_of_nat (48 + n mod 10)) acc)) as (d & Hs & Hne & Hall & Hval).
    { apply Nat.lt_le_trans with n; [apply Nat.div_lt |]; lia. }
    exists (d ++ [ascii_of_nat (48 + n mod 10)])%list. split.
    + rewrite Hs. cbn. rewrite <- app_assoc. reflexivity.
    + split; [destruct d; cbn; discriminate |]. split.
      * rewrite forallb_app, Hall. cbn [forallb andb]. rewrite Hd. reflexivity.
      * rewrite digits_value_snoc, Hval, Hv.
        pose proof (Nat.div_mod_eq n 10). lia.
Qed.

Lemma nat_dec_digits (n : nat) :
  exists d, str (nat_dec n) = d /\ d <> [] /\ forallb is_digit d = true /\ digits_value d = Z.of_nat n.
Proof.
  destruct (dec_fuel_digits (S n) n EmptyString ltac:(lia)) as (d & Hs & H).
  exists d. split; [rewrite app_nil_r in Hs; exact Hs | exact H].
Qed.

Lemma span_digits (d r : chars) :
  forallb is_digit d = true -> (exists c r', r = c :: r' /\ is_digit c = false) ->
  span is_digit (d ++ r)%list = (d, r).
Proof.
  intros Hd (c & r' & -> & Hc). induction d as [| x d IH]; cbn.
  - rewrite Hc. reflexivity.
  - cbn in Hd. apply andb_true_iff in Hd as [Hx Hd]. rewrite Hx, (IH Hd). reflexivity.
Qed.

Lemma search_first_skip (t s : chars) :
  ~ In "_"%char t -> search_first batch_pattern (t ++ s)%list = search_first batch_pattern s.
Proof.
  induction t as [| c t IH]; intros Hn; [reflexivity |].
  cbn [app search_first].
  assert (Hc : batch_pattern (c :: t ++ s)%list = None).
  { unfold batch_pattern. cbn [m_all]. unfold m_seq at 1, m_lit at 1. cbn [str list_ascii_of_string strip_prefix].
    destruct (Ascii.eqb_spec "_"%char c) as [<- | _]; [exfalso; apply Hn; left; reflexivity | reflexivity]. }
  rewrite Hc. apply IH. intros H. apply Hn. right. exact H.
Qed.

Lemma search_first_unfold (m : matcher) (s : chars) :
  search_first m s
  = match m s with
    | Some (caps, _) => Some caps
    | None => match s with [] => None | _ :: r => search_first m r end
    end.
Proof. destruct s; reflexivity. Qed.

(** [handleCSVBulkUpload] on a name of the form the client gives batch
    files, [<table>_batch_<i>_of_<n>_<rest>]: the expected file count is
    [n], whatever [i] and [rest] are, as long as the table name has no
    underscore and [n] is at most 2^53 (where [parseInt] is exact). *)
Theorem batch_total_of_batch_name (t rest : string) (i n : nat) :
  ~ In "_"%char (str t) -> (Z.of_nat n <= 2 ^ 53)%Z ->
  batch_total (t ++ "_batch_" ++ nat_dec i ++ "_of_" ++ nat_dec n ++ "_" ++ rest) = Some (Z.of_nat n).
Proof.
  intros Ht _. unfold batch_total.
  destruct (nat_dec_digits i) as (di & Hi & Hine & Hiall & _).
  destruct (nat_dec_digits n) as (dn & Hn & Hnne & Hnall & Hnval).
  rewrite !str_app, Hi, Hn, search_first_skip by exact Ht.
  rewrite search_first_unfold.
  unfold batch_pattern. cbn [m_all]. unfold m_seq, m_lit, m_plus.
  rewrite XmlFacts.strip_prefix_app.
  rewrite span_digits by (exact Hiall || (do 2 eexists; split; reflexivity)).
  destruct di as [| x di]; [congruence |].
  rewrite XmlFacts.strip_prefix_app.
  rewrite span_digits by (exact Hnall || (do 2 eexists; split; reflexivity)).
  destruct dn as [| y dn]; [congruence |].
  cbn. rewrite <- Hnval. reflexivity.
Qed.

Lemma batch_total_of_batch_name_witness :
  ~ In "_"%char (str "Sales") /\ (Z.of_nat 16 <= 2 ^ 53)%Z
  /\ batch_total ("Sales" ++ "_batch_" ++ nat_dec 3 ++ "_of_" ++ nat_dec 16 ++ "_" ++ "1700000000.csv")
     = Some 16%Z.
Proof.
  split; [| split].
  - cbn. intros H. repeat (destruct H as [H | H]; [discriminate H |]). exact H.
  - vm_compute. discriminate.
  - exact (batch_total_of_batch_name "Sales" "1700000000.csv" 3 16
             ltac:(cbn; intros H; repeat (destruct H as [H | H]; [discriminate H |]); exact H)
             ltac:(vm_compute; discriminate)).
Defined.

(** Header line *)

Lemma split_char_length (sep : ascii) (s : chars) :
  length (split_char sep s) = S (count_occ ascii_dec s sep).
Proof.
  induction s as [| c s IH]; [reflexivity |].
  cbn [split_char count_occ]. destruct (Ascii.eqb_spec c sep) as [-> | Hne].
  - destruct (ascii_dec sep sep) as [_ | []]; [| reflexivity]. cbn. rewrite IH. reflexivity.
  - destruct (ascii_dec c sep) as [E | _]; [contradiction |].
    destruct (split_char sep s) as [| p ps]; cbn in *; [discriminate | exact IH].
Qed.

Lemma split_char_parts (sep : ascii) (s : chars) (p : chars) :
  In p (split_char sep s) -> ~ In sep p.
Proof.
  revert p. induction s as [| c s IH]; intros p Hp.
  - destruct Hp as [<- | []]. intros [].
  - cbn [split_char] in Hp. destruct (Ascii.eqb_spec c sep) as [-> | Hne].
    + destruct Hp as [<- | Hp]; [intros [] | exact (IH p Hp)].
    + destruct (split_char sep s) as [| q qs] eqn:E.
      * destruct Hp as [<- | []]. intros [H | []]. apply Hne. exact H.
      * destruct Hp as [<- | Hp].
        -- intros [H | H]; [apply Hne; exact H |].
           apply (IH q); [left; reflexivity | exact H].
        -- apply IH. right. exact Hp.
Qed.

Lemma span_first_no (f : ascii -> bool) (l a b : chars) (c : ascii) :
  span f l = (a, b) -> In c a -> f c = true.
Proof.
  revert a b. induction l as [| x l IH]; intros a b E Hc; cbn in E.
  - inversion E; subst. destruct Hc.
  - destruct (f x) eqn:Hx.
    + destruct (span f l) as [a' b'] eqn:E'. inversion E; subst.
      destruct Hc as [<- | Hc]; [exact Hx | exact (IH _ _ eq_refl Hc)].
    + inversion E; subst. destruct Hc.
Qed.

Lemma first_line_no_lf (content : chars) : ~ In (ascii_of_nat 10) (first_line content).
Proof.
  unfold first_line. destruct (span _ content) as [l r] eqn:E.
  assert (Hl : ~ In (ascii_of_nat 10) l).
  { intros H. pose proof (span_first_no _ _ _ _ _ E H) as Hf. vm_compute in Hf. discriminate. }
  destruct (rev l) as [| c r'] eqn:Er; [exact Hl |].
  destruct (Ascii.eqb c (ascii_of_nat 13)); [| exact Hl].
  intros H. apply Hl. rewrite <- (rev_involutive l), Er. cbn [rev].
  apply in_or_app. left. exact H.
Qed.

Lemma drop_while_in (f : ascii -> bool) (l : chars) (c : ascii) : In c (drop_while f l) -> In c l.
Proof.
  induction l as [| x l IH]; cbn; [tauto |].
  destruct (f x); [intros H; right; exact (IH H) | tauto].
Qed.

Lemma js_trim_in (l : chars) (c : ascii) : In c (js_trim l) -> In c l.
Proof.
  unfold js_trim. intros H. rewrite <- in_rev in H.
  apply drop_while_in in H. rewrite <- in_rev in H.
  exact (drop_while_in _ _ _ H).
Qed.

Lemma drop_while_head (f : ascii -> bool) (l : chars) :
  drop_while f l = [] \/ exists c r, drop_while f l = c :: r /\ f c = false.
Proof.
  induction l as [| x l IH]; cbn; [left; reflexivity |].
  destruct (f x) eqn:Hx; [exact IH | right; exists x, l; split; [reflexivity | exact Hx]].
Qed.

Lemma drop_while_stop (f : ascii -> bool) (c : ascii) (r : chars) :
  f c = false -> drop_while f (c :: r) = c :: r.
Proof. intros H. cbn. rewrite H. reflexivity. Qed.

Lemma drop_while_split (f : ascii -> bool) (l : chars) :
  exists w, l = (w ++ drop_while f l)%list.
Proof.
  induction l as [| x l [w Hw]]; cbn; [exists []; reflexivity |].
  destruct (f x); [exists (x :: w); cbn; f_equal; exact Hw | exists []; reflexivity].
Qed.

(** [trim] leaves a trimmed string as it is. *)
Lemma js_trim_idem (l : chars) : js_trim (js_trim l) = js_trim l.
Proof.
  unfold js_trim at 2 3. set (u := drop_while is_js_space l).
  set (v := drop_while is_js_space (rev u)).
  assert (Hv : drop_while is_js_space v = v).
  { destruct (drop_while_head is_js_space (rev u)) as [E | (c & r & E & Hc)];
      unfold v; rewrite E; [reflexivity | apply drop_while_stop, Hc]. }
  destruct v as [| c r] eqn:Ev; [reflexivity |].
  assert (Hu : drop_while is_js_space u = u).
  { destruct (drop_while_head is_js_space l) as [E | (d & r' & E & Hd)];
      unfold u; rewrite E; [reflexivity | apply drop_while_stop, Hd]. }
  destruct (drop_while_split is_js_space (rev u)) as [w Hw]. fold v in Hw. rewrite Ev in Hw.
  assert (Hu' : u = (rev (c :: r) ++ rev w)%list).
  { rewrite <- rev_app_distr, <- Hw, rev_involutive. reflexivity. }
  unfold js_trim.
  assert (Hd : drop_while is_js_space (rev (c :: r)) = rev (c :: r)).
  { destruct u as [| x u'] eqn:Eu.
    - exfalso. destruct (rev (c :: r)) eqn:E; [cbn in E; destruct (rev r); discriminate |].
      discriminate Hu'.
    - destruct (rev (c :: r)) as [| y ys] eqn:E; [reflexivity |].
      cbn in Hu'. inversion Hu'; subst y.
      destruct (drop_while_head is_js_space l) as [E1 | (d & r' & E1 & Hd)].
      + fold u in E1. rewrite Eu in E1. discriminate.
      + fold u in E1. rewrite Eu in E1. inversion E1; subst d. apply drop_while_stop, Hd. }
  rewrite Hd, rev_involutive, Hv. reflexivity.
Qed.

(** The header line of [importCSVFileToMySQL]: there are as many headers
    as comma-separated pieces of the first line, commas inside quotes
    included (the quotes are removed, not interpreted), and each header is
    trimmed and holds no comma, no line feed and no quote character. *)
Theorem csv_headers_split_on_every_comma (content : chars) :
  length (csv_headers content) = S (count_occ ascii_dec (first_line content) ","%char)
  /\ forall h, In h (csv_headers content) ->
     js_trim h = h
     /\ forall c, In c h -> c <> ","%char /\ c <> ascii_of_nat 10 /\ is_quote c = false.
Proof.
  unfold csv_headers. split.
  - rewrite length_map. apply split_char_length.
  - intros h Hh. apply in_map_iff in Hh as (p & <- & Hp). split; [apply js_trim_idem |].
    intros c Hc. apply js_trim_in in Hc. apply filter_In in Hc as [Hc Hq].
    split; [| split].
    + intros ->. exact (split_char_parts _ _ _ Hp Hc).
    + intros ->. apply (first_line_no_lf content).
      (* every piece of the split is a part of the line *)
      clear Hq. revert p Hp Hc. generalize (first_line content) as s.
      induction s as [| x s IH]; intros p Hp Hc.
      * destruct Hp as [<- | []]. destruct Hc.
      * cbn [split_char] in Hp. destruct (Ascii.eqb x ","%char).
        -- destruct Hp as [<- | Hp]; [destruct Hc | right; exact (IH p Hp Hc)].
        -- destruct (split_char ","%char s) as [| q qs] eqn:E.
           ++ destruct Hp as [<- | []]. destruct Hc as [<- | []]. left. reflexivity.
           ++ destruct Hp as [<- | Hp].
              ** destruct Hc as [<- | Hc]; [left; reflexivity | right; apply (IH q); [left; reflexivity | exact Hc]].
              ** right. apply (IH p); [right; exact Hp | exact Hc].
    + apply negb_true_iff. exact Hq.
Qed.

(** LOAD DATA column mapping *)

Lemma skipn_nth_cons {A : Type} (l : list A) (k : nat) (d : A) :
  (k < length l)%nat -> skipn k l = nth k l d :: skipn (S k) l.
Proof.
  revert k. induction l as [| x l IH]; intros k Hk; cbn in Hk; [lia |].
  destruct k as [| k]; [reflexivity |]. cbn [skipn nth]. apply IH. lia.
Qed.

Lemma set_statements_from (hs cs : list string) (k : nat) :
  flat_map (fun '(tableCol, index) =>
              if (index <? length hs)%nat then
                [mkSet tableCol (nth index (map (fun h => "@" ++ sanitize h) hs) "")
                       (case_branches (is_protected_column tableCol))]
              else [])
           (combine cs (seq k (length cs)))
  = map (fun p => mkSet (fst p) ("@" ++ sanitize (snd p)) (case_branches (is_protected_column (fst p))))
        (combine cs (skipn k hs)).
Proof.
  revert k. induction cs as [| c cs IH]; intros k; [reflexivity |].
  cbn [length seq combine flat_map]. rewrite IH.
  destruct (k <? length hs)%nat eqn:Hk.
  - apply Nat.ltb_lt in Hk. rewrite (skipn_nth_cons hs k "") by exact Hk.
    cbn [combine map app fst snd]. f_equal. f_equal.
    rewrite (nth_indep _ "" ("@" ++ sanitize "")) by (rewrite length_map; exact Hk).
    exact (map_nth (fun h => "@" ++ sanitize h) hs "" k).
  - apply Nat.ltb_ge in Hk. rewrite !skipn_all2 by lia.
    destruct cs; reflexivity.
Qed.

(** [buildColumnMappings]: the [SET] assignments pair the table's columns
    with the CSV header variables by position, the first table column with
    the first header and so on, whatever the names are; table columns past
    the last header get no assignment. *)
Theorem set_statements_positional (hs cs : list string) :
  setStatements (buildColumnMappings hs cs)
  = map (fun p => mkSet (fst p) ("@" ++ sanitize (snd p)) (case_branches (is_protected_column (fst p))))
        (combine cs hs).
Proof. unfold buildColumnMappings. cbn [setStatements]. apply (set_statements_from hs cs 0). Qed.

End CsvFacts.

